(** * Auto-ml-train: the job-tracking relay and its polling client

    A shallow embedding of the Express server (the in-memory [jobs] object
    with its status, upload and callback routes) and of the polling logic of
    the React component [UploadDataset], followed by the properties of the
    specification that concern them.

    Conventions of the embedding.
    - The server state is threaded explicitly.  Node runs one piece of
      JavaScript at a time: the status and callback routes run to their
      end, the upload route runs from one [await] to the next.  The upload
      route is therefore a sequence of three stages, between which other
      requests may be served.
    - [jobs] is an ordinary JavaScript object ([const jobs = {}]).  Its own
      properties are a finite map from keys to job records; a read
      [jobs[k]] that finds no own property continues on [Object.prototype],
      and so does the read of a property that a request body lacks.  The
      state holds what the routes can write there: the three properties of
      [Object.prototype] itself, and those of the objects a read of [jobs]
      can return from it.
    - Calls that leave the process (file system, object storage, trainer
      webhook, the random source of [uuidv4]) are inputs of the route, with
      the outcome they are going to have.
    - On the client, a request and the handling of its reply are separate
      moments: the interval sends a request every three seconds whether or
      not the one before has been answered, and a reply is handled whenever
      it arrives, also after the interval has been cleared. *)

From stdpp Require Import base strings gmap list pretty.
From Stdlib Require Import ZArith Ascii Lia.

Local Open Scope string_scope.
Local Open Scope list_scope.
Local Open Scope Z_scope.

(** ** JavaScript values carried by requests and records *)

#[local] Set Warnings "-register-all".

(** What [JSON.parse] builds.  A number is held as the decimal text that
    JavaScript gives it (ToString: [0.92] is "0.92", [1e21] is "1e+21",
    zero of either sign is "0"); the fields of an object are in the order
    of the text, with distinct keys. *)
Inductive json : Type :=
| JNull
| JBool (b : bool)
| JNum (text : string)
| JStr (s : string)
| JArray (items : list json)
| JObject (fields : list (string * json)).

#[global] Instance json_eq_dec : EqDecision json.
Proof.
  refine (fix go (a b : json) {struct a} : Decision (a = b) :=
    match a, b with
    | JNull, JNull => left eq_refl
    | JBool x, JBool y => cast_if (decide (x = y))
    | JNum x, JNum y => cast_if (decide (x = y))
    | JStr x, JStr y => cast_if (decide (x = y))
    | JArray x, JArray y => cast_if (list_eq_dec (dec := go) x y)
    | JObject x, JObject y =>
        cast_if (list_eq_dec
                   (dec := λ p q, cast_if_and (decide (p.1 = q.1)) (go p.2 q.2))
                   x y)
    | _, _ => right _
    end); try abstract congruence.
  all: abstract (destruct p, q; simpl in *; congruence).
Defined.

(** The values of variables and properties: [undefined], a value of a
    request body, or a reference to an object that several properties
    share ([Server.shared]). *)
Inductive jsval : Type :=
| JUndefined
| Json (v : json)
| JRef (l : nat).

Coercion Json : json >-> jsval.

#[global] Instance jsval_eq_dec : EqDecision jsval.
Proof. solve_decision. Defined.

(** ToBoolean. *)
Definition truthy_json (v : json) : bool :=
  match v with
  | JNull => false
  | JBool b => b
  | JNum text => negb (String.eqb text "0")
  | JStr s => negb (String.eqb s "")
  | JArray _ | JObject _ => true
  end.

Definition truthy (v : jsval) : bool :=
  match v with
  | JUndefined => false
  | Json v => truthy_json v
  | JRef _ => true
  end.

(** [a || b]. *)
Definition js_or (a b : jsval) : jsval := if truthy a then a else b.

(** [a === b], for [b] a string literal. *)
Definition strict_eq (a b : jsval) : bool := bool_decide (a = b).

(** The own property [k] of a parsed object. *)
Definition has_field (k : string) (fields : list (string * json)) : bool :=
  bool_decide (k ∈ fields.*1).

(** ToPropertyKey, which [jobs[jobId]] applies to [jobId]: a string is
    itself, a number its decimal text, an array the texts of its items
    joined by commas ([null] counts as empty), an object goes through
    [Object.prototype.toString], unless it has a property [toString] of
    its own: that one is no function, [valueOf] returns no primitive, and
    the conversion throws a [TypeError] ([None]). *)
Fixpoint to_property_key (v : json) : option string :=
  match v with
  | JNull => Some "null"
  | JBool b => Some (if b then "true" else "false")
  | JNum text => Some text
  | JStr s => Some s
  | JArray items =>
      (fix join (items : list json) : option string :=
         match items with
         | [] => Some ""
         | item :: rest =>
             first ← match item with
                     | JNull => Some ""
                     | _ => to_property_key item
                     end;
             match rest with
             | [] => Some first
             | _ => others ← join rest; Some (first +:+ "," +:+ others)
             end
         end) items
  | JObject fields =>
      if has_field "toString" fields then None else Some "[object Object]"
  end.

(** A string that may be absent, when it is truthy. *)
Definition nonempty (o : option string) : option string :=
  match o with
  | Some s => if String.eqb s "" then None else Some s
  | None => None
  end.

(** [a || b] on strings that may be absent. *)
Definition string_or (a : option string) (b : string) : string :=
  default b (nonempty a).

Module Result.
(** [{ display_metric, message }], of a callback body: each is the value
    the body has, or [undefined] ([None]). *)
Record t : Type := Build {
  display_metric : option json;
  message : option json;
}.

#[global] Instance result_eq_dec : EqDecision t.
Proof. solve_decision. Defined.
End Result.

Module Job.
(** A record of [jobs]: [{ id, status, progress, email }], to which the
    upload route may add [message] and the callback route [result]. *)
Record t : Type := Build {
  id : string;
  status : jsval;
  progress : Z;
  email : string;
  message : option string;
  result : option Result.t;
}.

#[global] Instance job_eq_dec : EqDecision t.
Proof. solve_decision. Defined.

Definition set_status (v : jsval) (j : t) : t :=
  Build (id j) v (progress j) (email j) (message j) (result j).

Definition set_progress (p : Z) (j : t) : t :=
  Build (id j) (status j) p (email j) (message j) (result j).

Definition set_message (m : string) (j : t) : t :=
  Build (id j) (status j) (progress j) (email j) (Some m) (result j).

Definition set_result (r : Result.t) (j : t) : t :=
  Build (id j) (status j) (progress j) (email j) (message j) (Some r).
End Job.

(** ** HTTP responses: [res.status(code).json(body)] *)

(** [JobJson] is the JSON of a record, [ValueJson] that of any other
    value; [InheritedJson] is what [res.json] sends for a function:
    [JSON.stringify] has nothing to write and the body is empty. *)
Inductive body : Type :=
| Message (message : string)
| StatusMessage (status message : string)
| UploadStarted (status message jobId : string)
| UploadFailed (status message : string) (detail : jsval)
| JobJson (job : Job.t)
| ValueJson (v : json)
| InheritedJson.

Record response : Type := Respond { code : Z; json_body : body }.

(** * The server *)

Module Server.

(** The three properties the callback route writes. *)
Record written : Type := Written {
  w_status : jsval;
  w_progress : Z;
  w_result : Result.t;
}.

(** An array or object that a callback has stored under [status] on
    [Object.prototype].  From then on it is what a request body without
    [status] inherits, what a callback writes into the records, and what
    [jobs["status"]] returns: the properties that hold it hold the same
    object ([JRef], by its position in [shared_objects]).  [base] is the
    array or object as the body had it, [props] what a callback whose
    [jobId] is [status] has written on it since. *)
Record shared : Type := Shared {
  base : json;
  props : option written;
}.

(** The objects a read of [jobs] can return from [Object.prototype], with
    what the callback route has written on them: the functions of
    [Object.prototype], by name; the object under [result], which is a new
    one each time [Object.prototype.result] is assigned; the objects that
    have been stored under [status]. *)
Record heap : Type := Heap {
  functions : gmap string written;
  result_props : option written;
  shared_objects : list shared;
}.

(** [jobs]: the own properties of the object, what the program has
    written on [Object.prototype], from which [jobs] and every request
    body inherit, and the objects reached through it. *)
Record server : Type := Build {
  jobs : gmap string Job.t;
  prototype : option written;
  objects : heap;
}.

(** [const jobs = {}] *)
Definition init : server := Build ∅ None (Heap ∅ None []).

(** The functions every object inherits from [Object.prototype]. *)
Definition object_prototype_names : list string :=
  [ "constructor"; "hasOwnProperty"; "isPrototypeOf";
    "propertyIsEnumerable"; "toLocaleString"; "toString"; "valueOf";
    "__defineGetter__"; "__defineSetter__"; "__lookupGetter__";
    "__lookupSetter__" ].


(** What a read [jobs[k]] evaluates to: a record of the store,
    [Object.prototype] itself (for [__proto__]), one of its functions, the
    value it holds under [status] or [progress], the object it holds under
    [result], or [undefined]. *)
Inductive slot : Type :=
| Own (job : Job.t)
| ObjectPrototype
| Function (name : string)
| Value (v : jsval)
| ResultObject (r : Result.t)
| Missing.

Definition jobs_get (s : server) (k : string) : slot :=
  match jobs s !! k with
  | Some j => Own j
  | None =>
      if String.eqb k "__proto__" then ObjectPrototype
      else if bool_decide (k ∈ object_prototype_names) then Function k
      else
        match prototype s with
        | Some p =>
            if String.eqb k "status" then Value (w_status p)
            else if String.eqb k "progress"
                 then Value (JNum (pretty (w_progress p)))
            else if String.eqb k "result" then ResultObject (w_result p)
            else Missing
        | None => Missing
        end
  end.

(** ToBoolean of what [jobs[k]] evaluates to. *)
Definition found (x : slot) : bool :=
  match x with
  | Missing => false
  | Value v => truthy v
  | _ => true
  end.

(** ** Errors *)

(** A thrown [Error]: [error.message], and [error.response.data] when the
    error carries a response (axios, on an answer outside 2xx). *)
Record error : Type := Error {
  err_message : string;
  err_response : option jsval;
}.

Inductive outcome (A : Type) : Type :=
| Returns (a : A)
| Throws (e : error).
Arguments Returns {A} a.
Arguments Throws {A} e.

(** Code that reads and writes [jobs] and may throw. *)
Definition M (A : Type) : Type := server → outcome A * server.

#[local] Instance M_ret : MRet M := λ A a s, (Returns a, s).

#[local] Instance M_bind : MBind M := λ A B k m s,
  match m s with
  | (Returns a, s') => k a s'
  | (Throws e, s') => (Throws e, s')
  end.

Definition throw {A : Type} (e : error) : M A := λ s, (Throws e, s).

(** A call that leaves the process, with the outcome it is going to have. *)
Definition call {A : Type} (o : outcome A) : M A := λ s, (o, s).

Definition when (b : bool) (m : M unit) : M unit := if b then m else mret ().

Definition get_state : M server := λ s, (Returns s, s).

Definition modify (f : server → server) : M unit := λ s, (Returns (), f s).

(** [try { m } catch (error) { h error }], for a handler that does not
    throw. *)
Definition try_catch {A : Type} (m : M A) (h : error → server → A * server)
    (s : server) : A * server :=
  match m s with
  | (Returns a, s') => (a, s')
  | (Throws e, s') => h e s'
  end.

(** ** [JSON.stringify], as [res.json] applies it *)

(** One property of an object literal; a property whose value is
    [undefined] is not written. *)
Definition field (k : string) (v : option json) : list (string * json) :=
  match v with
  | Some v => [(k, v)]
  | None => []
  end.

Definition result_fields (r : Result.t) : list (string * json) :=
  field "display_metric" (Result.display_metric r)
  ++ field "message" (Result.message r).

Definition result_json (r : Result.t) : json := JObject (result_fields r).

(** The fields of an object after [object[k] = v]: the property keeps its
    place, a new one comes last. *)
Fixpoint set_field (k : string) (v : json) (fields : list (string * json))
    : list (string * json) :=
  match fields with
  | [] => [(k, v)]
  | (k', v') :: rest =>
      if String.eqb k' k then (k, v) :: rest
      else (k', v') :: set_field k v rest
  end.

Definition put_field (k : string) (v : jsval) (fields : list (string * json))
    : list (string * json) :=
  match v with
  | Json v => set_field k v fields
  | _ => List.filter (λ kv, negb (String.eqb kv.1 k)) fields
  end.

(** The fields of an object on which the callback route has written
    [status] (here with its JSON [st]), [progress] and [result]. *)
Definition with_written (fields : list (string * json)) (st : jsval)
    (w : written) : list (string * json) :=
  set_field "result" (result_json (w_result w))
    (set_field "progress" (JNum (pretty (w_progress w)))
       (put_field "status" st fields)).

Definition circular : error :=
  Error "Converting circular structure to JSON" None.

(** The JSON of a value.  A reference is followed to the object it names;
    [fuel] bounds how many references are followed in a row, and running
    out of it is meeting an object inside itself, on which
    [JSON.stringify] throws ([None]).  The properties written on an array
    are no items of it and are not part of its JSON. *)
Fixpoint resolve (fuel : nat) (h : list shared) (v : jsval) : option jsval :=
  match v, fuel with
  | JRef l, S fuel =>
      match h !! l with
      | Some (Shared (JObject fields) (Some w)) =>
          st ← resolve fuel h (w_status w);
          Some (Json (JObject (with_written fields st w)))
      | Some (Shared base _) => Some (Json base)
      | None => Some JUndefined
      end
  | JRef _, O => None
  | _, _ => Some v
  end.

(** With as many steps as there are shared objects, and one more, a chain
    of references that does not end has met an object twice. *)
Definition stringify (s : server) (v : jsval) : option jsval :=
  resolve (S (length (shared_objects (objects s))))
          (shared_objects (objects s)) v.

(** The JSON of a record: its own properties, of which only [status] can
    hold a reference. *)
Definition job_json (s : server) (job : Job.t) : option Job.t :=
  st ← stringify s (Job.status job); Some (Job.set_status st job).

(** The JSON of the object under [Object.prototype.result], made as [r]. *)
Definition result_object_json (s : server) (r : Result.t) : option json :=
  match result_props (objects s) with
  | Some w =>
      st ← stringify s (w_status w);
      Some (JObject (with_written (result_fields r) st w))
  | None => Some (result_json r)
  end.

(** The JSON of [Object.prototype]: the properties the program has added
    (those it starts with are not enumerable). *)
Definition prototype_json (s : server) : option json :=
  match prototype s with
  | Some p =>
      st ← stringify s (w_status p);
      r ← result_object_json s (w_result p);
      Some (JObject (put_field "status" st []
                     ++ [ ("progress", JNum (pretty (w_progress p)));
                          ("result", r) ]))
  | None => Some (JObject [])
  end.

(** [res.json(job)], which throws where [JSON.stringify] does. *)
Definition res_json (job : slot) (s : server) : outcome response :=
  let body :=
    match job with
    | Own job => JobJson <$> job_json s job
    | ObjectPrototype => ValueJson <$> prototype_json s
    | ResultObject r => ValueJson <$> result_object_json s r
    | Value v =>
        v ← stringify s v;
        Some (match v with Json v => ValueJson v | _ => InheritedJson end)
    | Function _ | Missing => Some InheritedJson
    end in
  match body with
  | Some body => Returns (Respond 200 body)
  | None => Throws circular
  end.

(** ** GET /api/status/:jobId

    The route has no [try]: where [res.json] throws, so does the route
    ([Throws]), and the answer is that of the error handling of Express,
    with a status of 400 or above. *)
Definition status_handler (jobId : string) (s : server)
    : outcome response * server :=
  let job := jobs_get s jobId in
  if found job then (res_json job s, s)
  else (Returns (Respond 404 (StatusMessage "error" "Job not found")), s).

(** ** POST /api/callback *)
Module Body.
(** [req.body], as the body parser leaves it: the properties the route
    reads, each with the value the body has for it or [None] when the body
    has no such property of its own. *)
Record t : Type := Build {
  jobId : option json;
  status : option json;
  display_metric : option json;
  message : option json;
}.
End Body.

(** [status], as [const { ..., status, ... } = req.body] reads it: the
    property of the body or, when the body has none, the one it inherits
    from [Object.prototype]. *)
Definition read_status (b : Body.t) (s : server) : jsval :=
  match Body.status b with
  | Some v => Json v
  | None =>
      match prototype s with
      | Some p => w_status p
      | None => JUndefined
      end
  end.

(** [status || "completed"], [100] and [{ display_metric, message }]. *)
Definition callback_writes (b : Body.t) (s : server) : written :=
  Written (js_or (read_status b s) (JStr "completed")) 100
          (Result.Build (Body.display_metric b) (Body.message b)).

Definition apply_written (w : written) (j : Job.t) : Job.t :=
  Job.set_result (w_result w)
    (Job.set_progress (w_progress w)
      (Job.set_status (w_status w) j)).

Definition is_object (v : jsval) : bool :=
  match v with
  | Json (JArray _) | Json (JObject _) => true
  | _ => false
  end.

(** [Object.prototype.status = v; ... .progress = p; ... .result = r].  An
    array or object that comes from the body becomes a shared object; the
    object under [result] is a new one. *)
Definition write_prototype (w : written) (s : server) : server :=
  let h := objects s in
  match w_status w with
  | Json v =>
      if is_object v then
        Build (jobs s)
              (Some (Written (JRef (length (shared_objects h)))
                             (w_progress w) (w_result w)))
              (Heap (functions h) None (shared_objects h ++ [Shared v None]))
      else Build (jobs s) (Some w) (Heap (functions h) None (shared_objects h))
  | _ => Build (jobs s) (Some w) (Heap (functions h) None (shared_objects h))
  end.

(** The three assignments [jobs[k].status = ...], [jobs[k].progress = 100]
    and [jobs[k].result = ...], on what [jobs[k]] is.  The file is not in
    strict mode: an assignment to a property of a string, a number or a
    boolean is dropped.  An array or object is written on (and the writes
    are seen wherever it is referred to) as the shared object it is: what
    [Object.prototype] holds under [status] is no array or object outside
    the shared ones in any state the server reaches. *)
Definition write (k : string) (w : written) (s : server) : server :=
  let h := objects s in
  match jobs_get s k with
  | Own job => Build (<[k := apply_written w job]> (jobs s)) (prototype s) h
  | ObjectPrototype => write_prototype w s
  | Function name =>
      Build (jobs s) (prototype s)
            (Heap (<[name := w]> (functions h)) (result_props h)
                  (shared_objects h))
  | ResultObject _ =>
      Build (jobs s) (prototype s)
            (Heap (functions h) (Some w) (shared_objects h))
  | Value (JRef l) =>
      Build (jobs s) (prototype s)
            (Heap (functions h) (result_props h)
                  (alter (λ o, Shared (base o) (Some w)) l (shared_objects h)))
  | Value _ | Missing => s
  end.

Definition cannot_destructure : error :=
  Error "Cannot destructure property 'jobId' of 'req.body' as it is undefined."
        None.

Definition cannot_convert : error :=
  Error "Cannot convert object to primitive value" None.

Definition acknowledged : response :=
  Respond 200 (StatusMessage "success" "Callback processed").

(** The body of the [try] block.  [body] is [None] when [req.body] is
    [undefined], as Express 5 leaves it on a request that no body parser
    has read. *)
Definition callback_body (body : option Body.t) : M response :=
  match body with
  | None => throw cannot_destructure
  | Some b =>
      s ← get_state;
      let w := callback_writes b s in
      match Body.jobId b with
      | Some jobId =>
          if truthy_json jobId then
            match to_property_key jobId with
            | Some k =>
                when (found (jobs_get s k)) (modify (write k w));;
                mret acknowledged
            | None => throw cannot_convert
            end
          else mret acknowledged
      | None => mret acknowledged
      end
  end.

(** The [catch] block. *)
Definition callback_catch (e : error) (s : server) : response * server :=
  (Respond 500 (StatusMessage "error" "Failed to process callback"), s).

Definition callback_handler (body : option Body.t) (s : server)
    : response * server :=
  try_catch (callback_body body) callback_catch s.

(** ** POST /api/upload *)

(** [uuidv4()] of the uuid package: 122 random bits in the layout of
    RFC 4122, as 32 hexadecimal digits in groups of 8-4-4-4-12. *)
Definition hex_digit (n : N) : ascii :=
  ascii_of_N (if (n <? 10)%N then 48 + n else 87 + n)%N.

Fixpoint hex (digits : nat) (n : N) : string :=
  match digits with
  | O => ""
  | S d => hex d (n / 16)%N +:+ String (hex_digit (n mod 16)%N) ""
  end.

Definition bits (from width : N) (r : N) : N := ((r / 2 ^ from) mod 2 ^ width)%N.

Definition uuidv4 (r : N) : string :=
  hex 8 (bits 0 32 r) +:+ "-" +:+
  hex 4 (bits 32 16 r) +:+ "-" +:+
  "4" +:+ hex 3 (bits 48 12 r) +:+ "-" +:+
  hex 1 (8 + bits 60 2 r)%N +:+ hex 3 (bits 62 12 r) +:+ "-" +:+
  hex 12 (bits 74 48 r).

(** The upload route reads and writes [jobs] under the key it has drawn
    with [uuidv4] only.  Such a key is no name of [Object.prototype], so
    [jobs[k]] is the record stored under it or [undefined]. *)

(** [jobs[k] = job] *)
Definition put_job (k : string) (job : Job.t) : M unit :=
  λ s, (Returns (), Build (<[k := job]> (jobs s)) (prototype s) (objects s)).

Definition cannot_set (property : string) : error :=
  Error ("Cannot set properties of undefined (setting '" +:+ property +:+ "')")
        None.

(** [jobs[k].property = v] *)
Definition assign (k property : string) (f : Job.t → Job.t) : M unit :=
  λ s, match jobs s !! k with
       | Some job =>
           (Returns (),
            Build (<[k := f job]> (jobs s)) (prototype s) (objects s))
       | None => (Throws (cannot_set property), s)
       end.

Module Upload.
(** What multer leaves on the request: [req.files?.csv] (the path of its
    first file) and [req.body.email]. *)
Record request : Type := Request {
  csv : option string;
  email : option string;
}.

(** [{ data: csvData, error: csvError }]: [data] is [csvData.path],
    [error] is [csvError.message] of a truthy [csvError]. *)
Record storage_reply : Type := Reply {
  data : option string;
  error : option (option string);
}.

(** The outcomes of the calls the route makes, in the order it makes them. *)
Record world : Type := World {
  rnd : N;
  readFileSync : outcome unit;
  storage_upload : outcome storage_reply;
  publicUrl : string;
  existsSync : bool;
  unlinkSync : outcome unit;
  axios_post : outcome Z;
}.
End Upload.

Definition type_error : error :=
  Error "Cannot read properties of null (reading 'path')" None.

(** The stages of the route: from its start to [await
    supabase.storage...upload(...)], from there to [await axios.post(...)],
    and from there to its end. *)
Inductive stage : Type :=
| Start
| Stored
| Triggered.

(** The body of the [try] block, stage by stage.  A stage ends with the
    response it has sent or, at an [await], with none. *)
Definition upload_body (st : stage) (w : Upload.world) (req : Upload.request)
    (jobId : string) : M (option response) :=
  match st with
  | Start =>
    match Upload.csv req with
    | None => mret (Some (Respond 400 (Message "CSV file is required")))
    | Some csvPath =>
      match nonempty (Upload.email req) with
      | None => mret (Some (Respond 400 (Message "Email is required")))
      | Some email =>
        put_job jobId (Job.Build jobId (JStr "uploading") 10 email None None);;
        call (Upload.readFileSync w);;
        mret None
      end
    end
  | Stored =>
    reply ← call (Upload.storage_upload w);
    match Upload.error reply with
    | Some csvError =>
        throw (Error ("Supabase upload failed: "
                      +:+ string_or csvError "Unknown error") None)
    | None =>
      match Upload.data reply with
      | None => throw type_error
      | Some path =>
        assign jobId "status" (Job.set_status (JStr "training"));;
        assign jobId "progress" (Job.set_progress 40);;
        when (Upload.existsSync w) (call (Upload.unlinkSync w));;
        mret None
      end
    end
  | Triggered =>
    call (Upload.axios_post w);;
    mret (Some (Respond 200
                  (UploadStarted "success"
                     "CSV uploaded & ML training started" jobId)))
  end.

(** [error.response?.data || null] *)
Definition detail_of (e : error) : jsval :=
  match err_response e with
  | Some d => js_or d JNull
  | None => JNull
  end.

(** [res.status(500).json({ status, message, detail })] *)
Definition failed_response (e : error) : response :=
  Respond 500
    (UploadFailed "error" ("Upload process failed: " +:+ err_message e)
                  (detail_of e)).

(** The [catch] block. *)
Definition upload_catch (jobId : string) (e : error) (s : server)
    : option response * server :=
  let s' :=
    match jobs s !! jobId with
    | Some job =>
        Build (<[jobId := Job.set_message (err_message e)
                            (Job.set_status (JStr "error") job)]> (jobs s))
              (prototype s) (objects s)
    | None => s
    end in
  (Some (failed_response e), s').

(** One stage of the route. *)
Definition upload (st : stage) (w : Upload.world) (req : Upload.request)
    : server → option response * server :=
  let jobId := uuidv4 (Upload.rnd w) in
  try_catch (upload_body st w req jobId) (upload_catch jobId).

(** ** The requests the server serves, one piece after the other *)

Inductive request : Type :=
| Upload (st : stage) (w : Upload.world) (req : Upload.request)
| Callback (body : option Body.t)
| Status (jobId : string).

(** A piece of a request, with what the route has answered by its end:
    nothing yet, a response, or an error it has thrown. *)
Definition handle (r : request) (s : server)
    : option (outcome response) * server :=
  match r with
  | Upload st w req =>
      let '(res, s') := upload st w req s in (Returns <$> res, s')
  | Callback body =>
      let '(res, s') := callback_handler body s in (Some (Returns res), s')
  | Status jobId => let '(res, s') := status_handler jobId s in (Some res, s')
  end.

Definition run (rs : list request) (s : server) : server :=
  foldl (λ s r, (handle r s).2) s rs.

(** The upload route, with the requests [rs1] and [rs2] served while it
    waits for the storage and for the trainer. *)
Definition upload_handler (w : Upload.world) (req : Upload.request)
    (rs1 rs2 : list request) (s : server) : option response * server :=
  match upload Start w req s with
  | (Some res, s') => (Some res, s')
  | (None, s1) =>
    match upload Stored w req (run rs1 s1) with
    | (Some res, s') => (Some res, s')
    | (None, s2) => upload Triggered w req (run rs2 s2)
    end
  end.

End Server.

(** * The polling client: [UploadDataset] *)

Module Client.

Record state : Type := State {
  csv : option string;
  email : string;
  status : string;
  progress : Z;
  jobId : option string;
  result : option Result.t;
  errorMsg : string;
}.

(** [useState] initial values. *)
Definition init : state := State None "" "idle" 0 None None "".

(** What [axios.get] on the status route gives: [res.data] (of which the
    effect reads [status] and [result]), or a rejection (transport failure
    or an answer outside 2xx), which the [catch] of the effect logs. *)
Inductive poll_reply : Type :=
| Data (status : jsval) (result : option Result.t)
| Failed.

(** [status === "training" && jobId]: the interval is set, and sends a
    request to the status route each time it fires. *)
Definition polling (c : state) : bool :=
  String.eqb (status c) "training"
  && bool_decide (is_Some (nonempty (jobId c))).

(** The callback of the interval from its [await axios.get(...)] on: the
    handling of the reply [r] of a request it has sent.  It runs when the
    reply arrives, whatever the state is by then: [clearInterval] stops
    the sending of requests and takes back none that is under way. *)
Definition tick (r : poll_reply) (c : state) : state :=
  match r with
  | Data st res =>
      if strict_eq st (JStr "completed") then
        State (csv c) (email c) "completed" 100 (jobId c) res (errorMsg c)
      else if strict_eq st (JStr "error") then
        State (csv c) (email c) "error" (progress c) (jobId c) (result c)
              "Cloud training failed. Please check your data."
      else
        State (csv c) (email c) (status c) (Z.min (progress c + 2) 95)
              (jobId c) (result c) (errorMsg c)
  | Failed => c
  end.

(** [handleSubmit] up to its [await]: nothing when the file or the email
    is missing. *)
Definition submit (c : state) : option state :=
  match csv c with
  | None => None
  | Some _ =>
      if String.eqb (email c) "" then None
      else Some (State (csv c) (email c) "uploading" 10 (jobId c) None "")
  end.

(** What [axios.post] on the upload route gives: [res.data.jobId], or the
    message of the rejection. *)
Inductive upload_reply : Type :=
| Accepted (jobId : option string)
| Rejected (message : string).

(** [handleSubmit] after its [await]. *)
Definition submitted (r : upload_reply) (c : state) : state :=
  match r with
  | Accepted id =>
      State (csv c) (email c) "training" 30 id (result c) (errorMsg c)
  | Rejected m =>
      State (csv c) (email c) "error" (progress c) (jobId c) (result c) m
  end.

(** The "Train Another Model" button. *)
Definition reset (c : state) : state :=
  State None "" "idle" 0 (jobId c) None (errorMsg c).

(** The replies [rs], handled in the order in which they arrive. *)
Definition ticks (rs : list poll_reply) (c : state) : state :=
  foldl (λ c r, tick r c) c rs.

(** The poll reply carries the status [st]. *)
Definition observes (st : string) (r : poll_reply) : bool :=
  match r with
  | Data v _ => strict_eq v (JStr st)
  | Failed => false
  end.

End Client.

(** * Vocabulary of the specification *)

Module Spec.
Import Server.

(** The order [uploading → training → {completed | error}] of the status
    enumeration; a value outside the enumeration has no rank. *)
Definition rank (v : jsval) : option nat :=
  match v with
  | Json (JStr s) =>
      if String.eqb s "uploading" then Some 0%nat
      else if String.eqb s "training" then Some 1%nat
      else if String.eqb s "completed" then Some 2%nat
      else if String.eqb s "error" then Some 2%nat
      else None
  | _ => None
  end.

Definition terminal (v : jsval) : Prop := rank v = Some 2%nat.

(** The status a callback leaves on the record it finds. *)
Definition callback_status (b : Body.t) (s : server) : jsval :=
  w_status (callback_writes b s).

(** The identifier of the job of an upload. *)
Definition job_key (w : Upload.world) : string := uuidv4 (Upload.rnd w).

(** The key a callback body names: that of a truthy [jobId] that has
    one. *)
Definition key_of (b : Body.t) : option string :=
  v ← Body.jobId b; if truthy_json v then to_property_key v else None.

(** The key under which a request may write. *)
Definition writes (r : request) : option string :=
  match r with
  | Upload _ w _ => Some (job_key w)
  | Callback body => body ≫= key_of
  | Status _ => None
  end.

(** Requests that leave the job [k] alone. *)
Definition quiet (k : string) (rs : list request) : Prop :=
  Forall (λ r, writes r ≠ Some k) rs.

(** A request that keeps to the protocol of the relay: an upload draws an
    identifier that is not in use, its storage stage finds the record as
    the first stage left it (no callback reaches a job before the trainer
    has been triggered for it), and the status a callback reports, which
    is the one the route writes, is a terminal one. *)
Definition in_protocol (r : request) (s : server) : Prop :=
  match r with
  | Upload Start w _ => jobs s !! job_key w = None
  | Upload Stored w _ =>
      ∀ job, jobs s !! job_key w = Some job → Job.status job = JStr "uploading"
  | Upload Triggered _ _ => True
  | Callback (Some b) => terminal (callback_status b s)
  | Callback None => True
  | Status _ => True
  end.

Fixpoint all_in_protocol (rs : list request) (s : server) : Prop :=
  match rs with
  | [] => True
  | r :: rs' => in_protocol r s ∧ all_in_protocol rs' (handle r s).2
  end.

(** The failure of a stage of the upload route on a record that exists,
    with the error the [catch] block receives. *)
Definition stage_failure (st : stage) (w : Upload.world) : option error :=
  match st with
  | Start =>
    match Upload.readFileSync w with
    | Throws e => Some e
    | Returns _ => None
    end
  | Stored =>
    match Upload.storage_upload w with
    | Throws e => Some e
    | Returns reply =>
      match Upload.error reply, Upload.data reply with
      | Some csvError, _ =>
          Some (Error ("Supabase upload failed: "
                       +:+ string_or csvError "Unknown error") None)
      | None, None => Some type_error
      | None, Some _ =>
        match Upload.existsSync w, Upload.unlinkSync w with
        | true, Throws e => Some e
        | _, _ => None
        end
      end
    end
  | Triggered =>
    match Upload.axios_post w with
    | Throws e => Some e
    | Returns _ => None
    end
  end.

(** The statuses a stage of the upload route may leave on its record. *)
Definition stage_status (st : stage) (v : jsval) : Prop :=
  match st with
  | Start => v = JStr "uploading" ∨ v = JStr "error"
  | Stored => v = JStr "training" ∨ v = JStr "error"
  | Triggered => v = JStr "error"
  end.

(** The failure that ends the route, if any: the one of its first stage
    that fails. *)
Definition first_failure (w : Upload.world) : option error :=
  match stage_failure Start w with
  | Some e => Some e
  | None =>
    match stage_failure Stored w with
    | Some e => Some e
    | None => stage_failure Triggered w
    end
  end.

(** Every step of the upload succeeds. *)
Definition succeeds (w : Upload.world) : Prop := first_failure w = None.

(** A submission the validation of the upload route accepts. *)
Definition valid (req : Upload.request) (email : string) : Prop :=
  is_Some (Upload.csv req) ∧ nonempty (Upload.email req) = Some email.

(** The record of the upload exists when the stage needs it: the first
    stage creates it, the later ones find it. *)
Definition created (st : stage) (w : Upload.world) (s : server) : Prop :=
  match st with
  | Start => True
  | Stored | Triggered => is_Some (jobs s !! job_key w)
  end.

(** The body names nothing that [jobs] holds or inherits: its [jobId] is
    absent or falsy, or [jobs[jobId]] is [undefined]. *)
Definition unknown_job (b : Body.t) (s : server) : Prop :=
  match Body.jobId b with
  | None => True
  | Some v =>
      truthy_json v = false ∨
      ∃ k, to_property_key v = Some k ∧ jobs_get s k = Missing
  end.

(** The upload is answered with success, and a status query right after
    it returns the record in training with a progress from 30 to 40. *)
Definition training_after_upload (w : Upload.world) (req : Upload.request)
    (rs1 rs2 : list request) (s : server) : Prop :=
  (upload_handler w req rs1 rs2 s).1 =
    Some (Respond 200
            (UploadStarted "success" "CSV uploaded & ML training started"
                           (job_key w))) ∧
  ∃ job,
    (status_handler (job_key w) (upload_handler w req rs1 rs2 s).2).1 =
      Returns (Respond 200 (JobJson job)) ∧
    Job.status job = JStr "training" ∧
    30 ≤ Job.progress job ≤ 40.

(** From store [s], the requests [rs] leave every terminal status as it
    is. *)
Definition terminal_is_final (s : server) (rs : list request) : Prop :=
  ∀ k job, jobs s !! k = Some job → terminal (Job.status job) →
    ∃ job', jobs (run rs s) !! k = Some job' ∧
            Job.status job' = Job.status job.

(** From store [s], the requests [rs] move no status backward, and keep a
    terminal status terminal. *)
Definition never_backward (s : server) (rs : list request) : Prop :=
  ∀ k job n, jobs s !! k = Some job → rank (Job.status job) = Some n →
    ∃ job' n', jobs (run rs s) !! k = Some job' ∧
               rank (Job.status job') = Some n' ∧ (n ≤ n')%nat ∧
               (terminal (Job.status job) → terminal (Job.status job')).

(** The store keeps [result] exactly on the completed records. *)
Definition result_iff_completed (s : server) : Prop :=
  ∀ k job, jobs s !! k = Some job →
    (is_Some (Job.result job) ↔ Job.status job = JStr "completed").

Definition completed_has_result (s : server) : Prop :=
  ∀ k job, jobs s !! k = Some job →
    Job.status job = JStr "completed" → is_Some (Job.result job).

End Spec.

(** * The scenarios of the specification, as inputs *)

Module Scenario.
Import Server.

(** [data.csv] with email [a@b.com]; storage and trainer answer. *)
Definition request : Upload.request :=
  Upload.Request (Some "uploads/data.csv") (Some "a@b.com").

Definition world : Upload.world :=
  Upload.World 7 (Returns ())
    (Returns (Upload.Reply (Some "uploads/1700000000000_data.csv") None))
    "https://storage.example/ml-datasets/uploads/1700000000000_data.csv"
    true (Returns ()) (Returns 200).

Definition jobId : string := uuidv4 7.

(** The store once that upload has been served. *)
Definition trained : server := (upload_handler world request [] [] init).2.

Definition training_job : Job.t :=
  Job.Build jobId (JStr "training") 40 "a@b.com" None None.

(** The trainer webhook does not answer within the 10 s of the call. *)
Definition timeout : error := Error "timeout of 10000ms exceeded" None.

Definition world_timeout : Upload.world :=
  Upload.World 11 (Returns ())
    (Returns (Upload.Reply (Some "uploads/1700000000001_data.csv") None))
    "https://storage.example/ml-datasets/uploads/1700000000001_data.csv"
    true (Returns ()) (Throws timeout).

(** Callback payloads for the first job, and for one the store has never
    had. *)
Definition great_fit : Body.t :=
  Body.Build (Some (JStr jobId)) None
             (Some (JStr "0.92 R²")) (Some (JStr "Great fit")).

Definition failed : Body.t :=
  Body.Build (Some (JStr jobId)) (Some (JStr "error")) None
             (Some (JStr "Training failed")).

Definition retrain : Body.t :=
  Body.Build (Some (JStr jobId)) (Some (JStr "training")) None None.

Definition stale : Body.t :=
  Body.Build (Some (JStr "3f2b8c1e-0000-4000-8000-00000000abcd")) None
             (Some (JStr "0.5")) (Some (JStr "late")).

(** [{"jobId": "__proto__", "status": "error"}] *)
Definition polluting : Body.t :=
  Body.Build (Some (JStr "__proto__")) (Some (JStr "error")) None None.

(** [{"jobId": {"toString": 1}}] *)
Definition unkeyed : Body.t :=
  Body.Build (Some (JObject [("toString", JNum "1")])) None None None.

Definition completed : server := (callback_handler (Some great_fit) trained).2.

Definition completed_job : Job.t :=
  Job.Build jobId (JStr "completed") 100 "a@b.com" None
            (Some (Result.Build (Some (JStr "0.92 R²"))
                                (Some (JStr "Great fit")))).

(** Requests of other clients, served while an upload waits. *)
Definition others : list Server.request :=
  [ Status jobId; Callback (Some stale); Status "constructor" ].

End Scenario.

Module ClientSpec.
Import Client.

(** The small fixed increment, and its cap. *)
Definition advance (p : Z) : Z := Z.min (p + 2) 95.

(** A poll that observes neither "completed" nor "error": any other
    answer of the status route, or a request that fails. *)
Definition non_terminal (r : poll_reply) : Prop :=
  observes "completed" r = false ∧ observes "error" r = false.

(** On state [c], the poll [r] advances the displayed progress. *)
Definition poll_advances (c : state) (r : poll_reply) : Prop :=
  polling c = true → non_terminal r →
  progress (tick r c) = advance (progress c).

(** From state [c], the displayed progress goes down at none of the
    replies [rs]. *)
Definition never_decreases (c : state) (rs : list poll_reply) : Prop :=
  ∀ rs1 r rs2, rs = rs1 ++ r :: rs2 →
    progress (ticks rs1 c) ≤ progress (tick r (ticks rs1 c)).

(** None of the replies carries the status "completed". *)
Definition none_completed (rs : list poll_reply) : Prop :=
  Forall (λ r, observes "completed" r = false) rs.

(** The bar is at 95 at most, unless a reply among [rs] has carried the
    status "completed". *)
Definition bounded (rs : list poll_reply) (c : state) : Prop :=
  progress c ≤ 95 ∨ ∃ res, Data (JStr "completed") res ∈ rs.

(** A file and an email have been entered. *)
Definition filled : state :=
  State (Some "data.csv") "a@b.com" "idle" 0 None None "".

(** [handleSubmit] is waiting for the upload route. *)
Definition uploading : state :=
  State (Some "data.csv") "a@b.com" "uploading" 10 None None "".

(** The upload has been accepted and the interval is running. *)
Definition waiting : state :=
  State (Some "data.csv") "a@b.com" "training" 30 (Some Scenario.jobId) None "".

End ClientSpec.

(** * The rest of the component: file input, views, events *)

Module Component.
Import Client.

(** [name.endsWith(suffix)] *)
Fixpoint ends_with (suffix name : string) : bool :=
  if String.eqb name suffix then true
  else match name with
       | EmptyString => false
       | String _ rest => ends_with suffix rest
       end.

(** [handleFileChange], on [e.target.files[0]]: a file is kept when its
    name ends in [.csv]; otherwise the component alerts, clears the input
    element and leaves its state as it is. *)
Definition handleFileChange (file : option string) (c : state) : state :=
  match file with
  | Some name =>
      if ends_with ".csv" name then
        State (Some name) (email c) (status c) (progress c) (jobId c)
              (result c) ""
      else c
  | None => c
  end.

(** [onChange] of the email input. *)
Definition setEmail (value : string) (c : state) : state :=
  State (csv c) value (status c) (progress c) (jobId c) (result c) (errorMsg c).

(** What the component renders: the form when idle or in error, the
    status container otherwise; the result card on top of it once the
    status is completed and there is a result. *)
Inductive view : Type :=
| Form
| StatusContainer.

Definition shown (c : state) : view :=
  if String.eqb (status c) "idle" || String.eqb (status c) "error"
  then Form else StatusContainer.

Definition result_card (c : state) : bool :=
  String.eqb (status c) "completed" && bool_decide (is_Some (result c)).

(** What can happen to the component.  An element exists, and its handler
    can run, only while the view that holds it is rendered.  [Reply] is
    the arrival of the answer to an upload that [handleSubmit] awaits,
    [Interval] that of the answer to a request of the interval; the
    component handles either in the state it is in by then.  The events
    do not record which requests are under way: a sequence of events may
    hold more replies than the component has sent requests. *)
Inductive event : Type :=
| ChooseFile (file : option string)
| TypeEmail (value : string)
| Submit
| Reply (reply : upload_reply)
| Interval (reply : poll_reply)
| TrainAnother.

Definition step (e : event) (c : state) : state :=
  match e, shown c with
  | ChooseFile file, Form => handleFileChange file c
  | TypeEmail value, Form => setEmail value c
  | Submit, Form => default c (submit c)
  | Reply reply, _ => submitted reply c
  | Interval reply, _ => tick reply c
  | TrainAnother, _ => if result_card c then reset c else c
  | _, StatusContainer => c
  end.

Definition steps (es : list event) (c : state) : state :=
  foldl (λ c e, step e c) c es.

(** A reply that arrives while the part of the component that has asked
    for it still waits: that of the upload while the status is
    "uploading", that of a poll while the interval is set. *)
Definition in_time (e : event) (c : state) : Prop :=
  match e with
  | Reply _ => status c = "uploading"
  | Interval _ => polling c = true
  | _ => True
  end.

Fixpoint all_in_time (es : list event) (c : state) : Prop :=
  match es with
  | [] => True
  | e :: es' => in_time e c ∧ all_in_time es' (step e c)
  end.

(** Poll replies that were answered (not failed). *)
Definition answered (r : poll_reply) : bool :=
  match r with
  | Data _ _ => true
  | Failed => false
  end.

(** The number of answered replies among [rs]. *)
Definition answers (rs : list poll_reply) : Z :=
  Z.of_nat (length (List.filter answered rs)).

(** Status and displayed progress fit together: 0 when idle, 10 while
    uploading, from 30 to 95 while training, 100 when completed, from 10
    to 95 in error. *)
Definition coherent (c : state) : Prop :=
  (status c = "idle" ∧ progress c = 0) ∨
  (status c = "uploading" ∧ progress c = 10) ∨
  (status c = "training" ∧ 30 ≤ progress c ≤ 95) ∨
  (status c = "completed" ∧ progress c = 100) ∨
  (status c = "error" ∧ 10 ≤ progress c ≤ 95).

End Component.

(** * Between the component and the server: multer and axios *)

Module Wire.
Import Server.

(** [multer.diskStorage]: the file lands in [UPLOAD_DIR] under its
    original name. *)
Definition UPLOAD_DIR : string := "uploads".

(** What the upload route finds on the request for the [FormData] that
    [handleSubmit] sends: fields [csv] (the file) and [email]. *)
Definition multipart (name email : string) : Upload.request :=
  Upload.Request (Some (UPLOAD_DIR +:+ "/" +:+ name)) (Some email).

(** axios resolves on a status from 200 to 299 and rejects otherwise. *)
Definition ok (r : response) : bool := (200 <=? code r) && (code r <? 300).

Definition body_jobId (b : body) : option string :=
  match b with
  | UploadStarted _ _ jobId => Some jobId
  | _ => None
  end.

Definition body_message (b : body) : option string :=
  match b with
  | Message m | StatusMessage _ m | UploadStarted _ m _ | UploadFailed _ m _ =>
      Some m
  | JobJson job => Job.message job
  | ValueJson _ | InheritedJson => None
  end.

(** [axios.post] on the upload route, as [handleSubmit] reads it:
    [res.data.jobId], or [err.response?.data?.message || err.message].
    [r] is [None] when no response arrives; [err_message] is the message
    axios gives its error. *)
Definition axios_post (err_message : string) (r : option response)
    : Client.upload_reply :=
  match r with
  | Some res =>
      if ok res then Client.Accepted (body_jobId (json_body res))
      else Client.Rejected (string_or (body_message (json_body res)) err_message)
  | None => Client.Rejected err_message
  end.

(** [axios.get] on the status route, as the polling effect reads it, for
    the answers that carry a job record or an error status. *)
Definition axios_get (res : response) : option Client.poll_reply :=
  if ok res then
    match json_body res with
    | JobJson job => Some (Client.Data (Job.status job) (Job.result job))
    | _ => None
    end
  else Some Client.Failed.

(** One poll of the component against the server.  Where the route
    throws, Express answers with an error status, which axios rejects. *)
Definition poll (jobId : string) (s : server) : option Client.poll_reply :=
  match (status_handler jobId s).1 with
  | Returns res => axios_get res
  | Throws _ => Some Client.Failed
  end.

(** One firing of the interval of the component [c] against the store
    [s], with the reply handled before anything else happens: the request
    goes to the status route for [jobId]. *)
Definition interval (s : server) (c : Client.state) : option Client.state :=
  if Client.polling c then
    match Client.jobId c with
    | Some jobId => r ← poll jobId s; Some (Client.tick r c)
    | None => Some c
    end
  else Some c.

End Wire.

(** * Properties of reachable stores *)

Module Invariant.
Import Server Spec.

(** Every record sits under its own identifier, which has the length of a
    uuid, and carries a non-empty email. *)
Definition well_keyed (s : server) : Prop :=
  ∀ k job, jobs s !! k = Some job →
    Job.id job = k ∧ String.length k = 36%nat ∧ Job.email job ≠ "".

(** Every record has one of the three progress values the routes write,
    and a truthy status. *)
Definition well_valued (s : server) : Prop :=
  ∀ k job, jobs s !! k = Some job →
    (Job.progress job = 10 ∨ Job.progress job = 40 ∨ Job.progress job = 100) ∧
    truthy (Job.status job) = true.

(** A request that is not the first stage of an upload. *)
Definition creates_nothing (r : request) : Prop :=
  match r with
  | Upload Start _ _ => False
  | _ => True
  end.

(** The first stage of an upload that has drawn the identifier [k]. *)
Definition recreates (k : string) (r : request) : Prop :=
  match r with
  | Upload Start w _ => job_key w = k
  | _ => False
  end.

(** A callback whose [jobId] names the key [k]. *)
Definition calls_back (k : string) (r : request) : Prop :=
  match r with
  | Callback body => body ≫= key_of = Some k
  | _ => False
  end.

(** A request that is no callback for [__proto__]. *)
Definition spares_prototype (r : request) : Prop :=
  match r with
  | Callback body => body ≫= key_of ≠ Some "__proto__"
  | _ => True
  end.

(** An array or object that [Object.prototype] holds under [status] is
    held as a shared object of the state: the property is a reference to
    one of them, or no object at all. *)
Definition status_shared (s : server) : Prop :=
  ∀ p, prototype s = Some p →
    is_object (w_status p) = false ∧
    ∀ l, w_status p = JRef l →
         (l < length (shared_objects (objects s)))%nat.


End Invariant.

(** * The earlier upload route, without job store *)

Module Legacy.
Import Server.

Inductive body : Type :=
| Message (message : string)
| StatusMessage (status message : string)
| Uploaded (status message csvUrl email : string).

Record response : Type := Respond { code : Z; json_body : body }.

Definition then_ {A B : Type} (o : outcome A) (k : A → outcome B) : outcome B :=
  match o with
  | Returns a => k a
  | Throws e => Throws e
  end.

(** The body of the [try] block, after validation. *)
Definition upload_body (w : Upload.world) (email : string) : outcome response :=
  then_ (Upload.readFileSync w) (λ _,
  then_ (Upload.storage_upload w) (λ reply,
    match Upload.error reply with
    | Some csvError =>
        Throws (Error ("Supabase upload failed: "
                       +:+ string_or csvError "Unknown error") None)
    | None =>
      match Upload.data reply with
      | None => Throws type_error
      | Some path =>
        then_ (Upload.unlinkSync w) (λ _,
        then_ (Upload.axios_post w) (λ _,
          Returns (Respond 200
                     (Uploaded "success" "CSV uploaded & ML training started"
                               (Upload.publicUrl w) email))))
      end
    end)).

Definition upload_handler (w : Upload.world) (req : Upload.request) : response :=
  match Upload.csv req with
  | None => Respond 400 (Message "CSV file is required")
  | Some csvPath =>
    match nonempty (Upload.email req) with
    | None => Respond 400 (Message "Email is required")
    | Some email =>
      match upload_body w email with
      | Returns res => res
      | Throws _ =>
          Respond 500 (StatusMessage "error" "Server error during upload")
      end
    end
  end.

End Legacy.

(** * Properties of the server *)

Module ServerProofs.
Import Server Spec.

Lemma jobs_get_own (s : server) (k : string) (job : Job.t) :
  jobs s !! k = Some job → jobs_get s k = Own job.
Proof. intros Hk. unfold jobs_get. by rewrite Hk. Qed.

Lemma jobs_get_own_inv (s : server) (k : string) (job : Job.t) :
  jobs_get s k = Own job → jobs s !! k = Some job.
Proof.
  unfold jobs_get. destruct (jobs s !! k) as [j|]; [congruence|].
  repeat case_match; discriminate.
Qed.

Lemma apply_written_twice (w : written) (job : Job.t) :
  apply_written w (apply_written w job) = apply_written w job.
Proof. by destruct job. Qed.

Lemma key_of_Some (b : Body.t) (k : string) :
  key_of b = Some k →
  ∃ v, Body.jobId b = Some v ∧ truthy_json v = true ∧
       to_property_key v = Some k.
Proof.
  unfold key_of. destruct (Body.jobId b) as [v|]; [|done].
  cbn [mbind option_bind]. destruct (truthy_json v) eqn:Htruthy; [|done].
  intros Hk. by exists v.
Qed.

Ltac run_callback :=
  unfold callback_handler, try_catch, callback_body;
  unfold mbind, M_bind, mret, M_ret, get_state, modify, when, throw.

(** The callback route either leaves the state as it is, or answers with
    its acknowledgement after the three assignments under the key that
    the body names. *)
Lemma callback_cases (body : option Body.t) (s : server) :
  (callback_handler body s).2 = s ∨
  ∃ b k, body = Some b ∧ key_of b = Some k ∧ found (jobs_get s k) = true ∧
         callback_handler body s = (acknowledged, write k (callback_writes b s) s).
Proof.
  destruct body as [b|]; [|by left].
  run_callback.
  destruct (Body.jobId b) as [v|] eqn:Hid; [|by left].
  destruct (truthy_json v) eqn:Htruthy; [|by left].
  destruct (to_property_key v) as [k|] eqn:Hkey; [|by left].
  destruct (found (jobs_get s k)) eqn:Hfound; [|by left].
  right. exists b, k. repeat split; [|done].
  unfold key_of. rewrite Hid. cbn [mbind option_bind]. by rewrite Htruthy.
Qed.

Lemma callback_found (b : Body.t) (s : server) (k : string) :
  key_of b = Some k → found (jobs_get s k) = true →
  callback_handler (Some b) s = (acknowledged, write k (callback_writes b s) s).
Proof.
  intros (v & Hid & Htruthy & Hkey)%key_of_Some Hfound.
  run_callback. by rewrite Hid, Htruthy, Hkey, Hfound.
Qed.

Lemma write_prototype_jobs (w : written) (s : server) :
  jobs (write_prototype w s) = jobs s.
Proof. unfold write_prototype. by repeat case_match. Qed.

(** The assignments reach a record only where [jobs] has one of its own
    under the key. *)
Lemma write_jobs (k : string) (w : written) (s : server) :
  jobs (write k w s) =
    match jobs s !! k with
    | Some job => <[k := apply_written w job]> (jobs s)
    | None => jobs s
    end.
Proof.
  unfold write. destruct (jobs s !! k) as [job|] eqn:Hk.
  - by rewrite (jobs_get_own _ _ _ Hk).
  - destruct (jobs_get s k) eqn:Hslot; try done.
    + apply jobs_get_own_inv in Hslot. congruence.
    + apply write_prototype_jobs.
    + by destruct v.
Qed.

Lemma write_own (k : string) (w : written) (s : server) (job : Job.t) :
  jobs s !! k = Some job →
  write k w s =
    Build (<[k := apply_written w job]> (jobs s)) (prototype s) (objects s).
Proof. intros Hk. unfold write. by rewrite (jobs_get_own _ _ _ Hk). Qed.

(** The callback route, on a body that names a record of the store. *)
Lemma callback_own (b : Body.t) (s : server) (k : string) (job : Job.t) :
  key_of b = Some k → jobs s !! k = Some job →
  callback_handler (Some b) s =
    (acknowledged,
     Build (<[k := apply_written (callback_writes b s) job]> (jobs s))
           (prototype s) (objects s)).
Proof.
  intros Hid Hk. rewrite (callback_found b s k Hid).
  - by rewrite (write_own _ _ _ _ Hk).
  - by rewrite (jobs_get_own _ _ _ Hk).
Qed.

(** What the callback route does to the records. *)
Lemma callback_jobs (body : option Body.t) (s : server) :
  jobs (callback_handler body s).2 = jobs s ∨
  ∃ b k job, body = Some b ∧ key_of b = Some k ∧ jobs s !! k = Some job ∧
    jobs (callback_handler body s).2 =
      <[k := apply_written (callback_writes b s) job]> (jobs s).
Proof.
  destruct (callback_cases body s) as [->|(b & k & -> & Hid & _ & ->)];
    [by left|].
  simpl. rewrite write_jobs.
  destruct (jobs s !! k) as [job|] eqn:Hk; [|by left].
  right. by exists b, k, job.
Qed.

(** What the callback route writes depends on the store through
    [Object.prototype] only. *)
Lemma callback_writes_prototype (b : Body.t) (s s' : server) :
  prototype s = prototype s' → callback_writes b s = callback_writes b s'.
Proof. unfold callback_writes, read_status. by intros ->. Qed.



(** The scenario of the specification on a server that has served the
    upload and nothing else: no explicit status, the record becomes
    completed. *)
Example callback_great_fit :
  jobs Scenario.completed !! Scenario.jobId = Some Scenario.completed_job.
Proof. vm_compute. reflexivity. Qed.

(** C3.  The scenario of the specification, a callback with display
    metric and message and no status for a job in training, on two
    servers.  Where the upload is all that has been served, the record
    becomes completed, with progress 100 and the result of the body.
    After a callback whose [jobId] is [__proto__] and whose status is
    "error", [Object.prototype] has a property [status]
    ([jobs["__proto__"]] is [Object.prototype]); the body of the next
    callback has none of its own, the destructuring reads the inherited
    one, and the record of the job gets the status "error" instead of
    "completed". *)
Theorem callback_inherits_status :
  jobs Scenario.trained !! Scenario.jobId = Some Scenario.training_job ∧
  key_of Scenario.great_fit = Some Scenario.jobId ∧
  Body.status Scenario.great_fit = None ∧
  jobs (run [ Callback (Some Scenario.great_fit) ] Scenario.trained)
    !! Scenario.jobId =
    Some (Job.Build Scenario.jobId (JStr "completed") 100 "a@b.com" None
            (Some (Result.Build (Some (JStr "0.92 R²"))
                                (Some (JStr "Great fit"))))) ∧
  jobs (run [ Callback (Some Scenario.polluting);
              Callback (Some Scenario.great_fit) ] Scenario.trained)
    !! Scenario.jobId =
    Some (Job.Build Scenario.jobId (JStr "error") 100 "a@b.com" None
            (Some (Result.Build (Some (JStr "0.92 R²"))
                                (Some (JStr "Great fit"))))).
Proof. repeat split; vm_compute; reflexivity. Qed.

(** Where [jobs[jobId]] is [undefined], or [jobId] is absent or falsy,
    the callback route changes nothing and answers with its
    acknowledgement. *)
Lemma callback_unknown_noop (b : Body.t) (s : server) :
  unknown_job b s → callback_handler (Some b) s = (acknowledged, s).
Proof.
  unfold unknown_job. run_callback.
  destruct (Body.jobId b) as [v|]; [|done].
  intros [->|(k & -> & ->)]; [done|]. by destruct (truthy_json v).
Qed.

(** C6.  Two callbacks whose [jobId] names no job of the store.  For
    [{"jobId": {"toString": 1}}] the conversion of [jobId] to a property
    key throws inside [jobs[jobId]] (the body names no key at all), and
    the route answers with the 500 of its [catch] block, leaving the state
    as it is.  For [{"jobId": "__proto__", "status": "error"}]
    the test [jobs[jobId]] finds [Object.prototype] and the assignments
    are made on it: the route acknowledges, and the status route, which
    answered 404 for the identifier [status], now answers 200 with
    "error". *)
Theorem callback_unknown_fails :
  key_of Scenario.unkeyed = None ∧
  callback_handler (Some Scenario.unkeyed) Scenario.trained =
    (Respond 500 (StatusMessage "error" "Failed to process callback"),
     Scenario.trained) ∧
  jobs Scenario.trained !! "__proto__" = None ∧
  key_of Scenario.polluting = Some "__proto__" ∧
  (callback_handler (Some Scenario.polluting) Scenario.trained).1 =
    Respond 200 (StatusMessage "success" "Callback processed") ∧
  (status_handler "status" Scenario.trained).1 =
    Returns (Respond 404 (StatusMessage "error" "Job not found")) ∧
  (status_handler "status"
     (callback_handler (Some Scenario.polluting) Scenario.trained).2).1 =
    Returns (Respond 200 (ValueJson (JStr "error"))).
Proof. repeat split; vm_compute; reflexivity. Qed.

(** C7.  Callback idempotence: for a job in the completed state, a second
    delivery of the same payload for that job leaves its record, and the
    whole state of the server, exactly as the first delivery left them. *)
Theorem callback_idempotent (b : Body.t) (s : server) (k : string) (job : Job.t) :
  key_of b = Some k → jobs s !! k = Some job →
  Job.status job = JStr "completed" →
  jobs (callback_handler (Some b) (callback_handler (Some b) s).2).2 !! k
    = jobs (callback_handler (Some b) s).2 !! k ∧
  (callback_handler (Some b) (callback_handler (Some b) s).2).2
    = (callback_handler (Some b) s).2.
Proof.
  intros Hid Hk _. rewrite (callback_own b s k job Hid Hk). simpl.
  rewrite (callback_own b _ k (apply_written (callback_writes b s) job) Hid)
    by apply lookup_insert_eq.
  simpl. rewrite (callback_writes_prototype b _ s) by done.
  by rewrite apply_written_twice, insert_insert_eq.
Qed.

Lemma callback_idempotent_scenario :
  jobs (callback_handler (Some Scenario.great_fit)
          (callback_handler (Some Scenario.great_fit) Scenario.completed).2).2
    !! Scenario.jobId
    = jobs (callback_handler (Some Scenario.great_fit) Scenario.completed).2
        !! Scenario.jobId ∧
  (callback_handler (Some Scenario.great_fit)
     (callback_handler (Some Scenario.great_fit) Scenario.completed).2).2
    = (callback_handler (Some Scenario.great_fit) Scenario.completed).2.
Proof.
  apply (callback_idempotent Scenario.great_fit Scenario.completed
           Scenario.jobId Scenario.completed_job); vm_compute; reflexivity.
Defined.

(** C10.  Frame of the callback route: on a payload whose [jobId] names a
    known job, the record keeps its [id], [email] and [message]; only
    [status], [progress] and [result] are written; every other record of
    the store, [Object.prototype] and the objects reached through it are
    as before. *)
Theorem callback_frame (b : Body.t) (s : server) (k : string) (job : Job.t) :
  key_of b = Some k → jobs s !! k = Some job →
  (∃ job', jobs (callback_handler (Some b) s).2 !! k = Some job' ∧
     Job.id job' = Job.id job ∧
     Job.email job' = Job.email job ∧
     Job.message job' = Job.message job) ∧
  (∀ k', k' ≠ k → jobs (callback_handler (Some b) s).2 !! k' = jobs s !! k') ∧
  prototype (callback_handler (Some b) s).2 = prototype s ∧
  objects (callback_handler (Some b) s).2 = objects s.
Proof.
  intros Hid Hk. rewrite (callback_own b s k job Hid Hk). simpl.
  split; [|split; [|done]].
  - eexists. rewrite lookup_insert_eq. by repeat split.
  - intros k' Hne. by rewrite lookup_insert_ne.
Qed.

Lemma callback_frame_scenario :
  (∃ job', jobs (callback_handler (Some Scenario.failed) Scenario.trained).2
             !! Scenario.jobId = Some job' ∧
     Job.id job' = Job.id Scenario.training_job ∧
     Job.email job' = Job.email Scenario.training_job ∧
     Job.message job' = Job.message Scenario.training_job) ∧
  (∀ k', k' ≠ Scenario.jobId →
     jobs (callback_handler (Some Scenario.failed) Scenario.trained).2 !! k'
       = jobs Scenario.trained !! k') ∧
  prototype (callback_handler (Some Scenario.failed) Scenario.trained).2
    = prototype Scenario.trained ∧
  objects (callback_handler (Some Scenario.failed) Scenario.trained).2
    = objects Scenario.trained.
Proof.
  apply (callback_frame Scenario.failed Scenario.trained
           Scenario.jobId Scenario.training_job); vm_compute; reflexivity.
Defined.

(** ** The status route *)

(** The JSON of a value that is no reference is the value. *)
Lemma stringify_string (s : server) (st : string) :
  stringify s (JStr st) = Some (Json (JStr st)).
Proof. reflexivity. Qed.

(** A record whose status is a string is returned as it is. *)
Lemma status_known (s : server) (k : string) (job : Job.t) (st : string) :
  jobs s !! k = Some job → Job.status job = JStr st →
  status_handler k s = (Returns (Respond 200 (JobJson job)), s).
Proof.
  intros Hk Hst. unfold status_handler. rewrite (jobs_get_own _ _ _ Hk).
  cbn [found]. unfold res_json, job_json. rewrite Hst, stringify_string.
  cbn. rewrite <- Hst. by destruct job.
Qed.

Lemma status_read_only (s : server) (k : string) : (status_handler k s).2 = s.
Proof. unfold status_handler. by destruct (found (jobs_get s k)). Qed.


(** C5.  The status route on the identifier [constructor], for which the
    store holds no record: [jobs["constructor"]] is the function every
    object inherits, the test [!job] fails, and the answer is HTTP 200 with
    the JSON of that value instead of the 404 of an unknown job. *)
Theorem status_inherited_name :
  jobs init !! "constructor" = None ∧
  status_handler "constructor" init = (Returns (Respond 200 InheritedJson), init).
Proof. split; reflexivity. Qed.

(** ** The upload route *)

Lemma length_append (a b : string) :
  String.length (a +:+ b) = (String.length a + String.length b)%nat.
Proof. induction a as [|c a IH]; simpl; [done|]. by rewrite IH. Qed.

Lemma hex_length (digits : nat) (n : N) : String.length (hex digits n) = digits.
Proof.
  revert n. induction digits as [|d IH]; intros n; simpl; [done|].
  rewrite length_append, IH. simpl. lia.
Qed.

Lemma uuidv4_length (r : N) : String.length (uuidv4 r) = 36%nat.
Proof.
  unfold uuidv4. rewrite !length_append, !hex_length. reflexivity.
Qed.

(** A uuid is no name of [Object.prototype]: [jobs[jobId]] is the record
    stored under it, or [undefined]. *)
Lemma uuidv4_slot (s : server) (r : N) :
  jobs_get s (uuidv4 r) =
    match jobs s !! uuidv4 r with Some job => Own job | None => Missing end.
Proof.
  pose proof (uuidv4_length r) as Hlen. unfold jobs_get.
  destruct (jobs s !! uuidv4 r); [done|].
  destruct (String.eqb_spec (uuidv4 r) "__proto__") as [Heq|_].
  { rewrite Heq in Hlen. discriminate. }
  rewrite bool_decide_eq_false_2.
  - destruct (prototype s); [|done].
    destruct (String.eqb_spec (uuidv4 r) "status") as [Heq|_];
      [rewrite Heq in Hlen; discriminate|].
    destruct (String.eqb_spec (uuidv4 r) "progress") as [Heq|_];
      [rewrite Heq in Hlen; discriminate|].
    destruct (String.eqb_spec (uuidv4 r) "result") as [Heq|_];
      [rewrite Heq in Hlen; discriminate|].
    done.
  - intros Hin. unfold object_prototype_names in Hin.
    repeat (apply elem_of_cons in Hin as [Heq|Hin];
            [rewrite Heq in Hlen; discriminate|]).
    by apply elem_of_nil in Hin.
Qed.

(** For an identifier the server may have issued, the status route answers
    404 when the store has no record under it. *)
Lemma status_unknown_uuid (s : server) (r : N) :
  jobs s !! uuidv4 r = None →
  status_handler (uuidv4 r) s =
    (Returns (Respond 404 (StatusMessage "error" "Job not found")), s).
Proof.
  intros Hk. unfold status_handler. by rewrite uuidv4_slot, Hk.
Qed.

#[local] Arguments uuidv4 : simpl never.
#[local] Arguments upload_catch : simpl never.

Ltac run_upload :=
  unfold upload, try_catch, upload_body;
  unfold mbind, M_bind, mret, M_ret, put_job, call, throw, when.

Lemma assign_some (k property : string) (f : Job.t → Job.t) (s : server)
    (job : Job.t) :
  jobs s !! k = Some job →
  assign k property f s =
    (Returns (), Build (<[k := f job]> (jobs s)) (prototype s) (objects s)).
Proof. intros Hk. unfold assign. by rewrite Hk. Qed.

(** The error the [catch] block receives is recorded on the record of the
    upload, if there is one. *)
Lemma catch_some (k : string) (e : error) (s : server) (job : Job.t) :
  jobs s !! k = Some job →
  upload_catch k e s =
    (Some (failed_response e),
     Build (<[k := Job.set_message (err_message e)
                     (Job.set_status (JStr "error") job)]> (jobs s))
           (prototype s) (objects s)).
Proof. intros Hk. unfold upload_catch. by rewrite Hk. Qed.

Lemma catch_insert (k : string) (e : error) (job : Job.t)
    (m : gmap string Job.t) (p : option written) (h : heap) :
  upload_catch k e (Build (<[k := job]> m) p h) =
    (Some (failed_response e),
     Build (<[k := Job.set_message (err_message e)
                     (Job.set_status (JStr "error") job)]> m) p h).
Proof.
  rewrite (catch_some k e _ job) by apply lookup_insert_eq.
  simpl. by rewrite insert_insert_eq.
Qed.

Lemma catch_none (k : string) (e : error) (s : server) :
  jobs s !! k = None → upload_catch k e s = (Some (failed_response e), s).
Proof. intros Hk. unfold upload_catch. by rewrite Hk. Qed.

(** The first stage. *)
Lemma upload_start_rejected (w : Upload.world) (req : Upload.request) (s : server) :
  Upload.csv req = None ∨ nonempty (Upload.email req) = None →
  ∃ m, upload Start w req s = (Some (Respond 400 (Message m)), s).
Proof.
  intros Hbad. run_upload.
  destruct (Upload.csv req); [|by eexists].
  destruct Hbad as [Hbad|Hbad]; [done|]. rewrite Hbad. by eexists.
Qed.

Lemma upload_start_valid (w : Upload.world) (req : Upload.request) (s : server)
    (email : string) :
  valid req email →
  upload Start w req s =
    match stage_failure Start w with
    | None =>
        (None,
         Build (<[job_key w :=
                    Job.Build (job_key w) (JStr "uploading") 10 email None None]>
                  (jobs s))
               (prototype s) (objects s))
    | Some e =>
        (Some (failed_response e),
         Build (<[job_key w :=
                    Job.Build (job_key w) (JStr "error") 10 email
                              (Some (err_message e)) None]> (jobs s))
               (prototype s) (objects s))
    end.
Proof.
  intros [[csvPath Hcsv] Hemail]. run_upload. rewrite Hcsv, Hemail.
  unfold stage_failure, job_key.
  destruct (Upload.readFileSync w) as [[]|e]; simpl; [done|].
  by rewrite catch_insert.
Qed.

(** The second stage, on a store that has the record. *)
Lemma upload_stored_some (w : Upload.world) (req : Upload.request) (s : server)
    (job : Job.t) :
  jobs s !! job_key w = Some job →
  ∃ p,
  upload Stored w req s =
    match stage_failure Stored w with
    | None =>
        (None,
         Build (<[job_key w :=
                    Job.set_progress 40 (Job.set_status (JStr "training") job)]>
                  (jobs s))
               (prototype s) (objects s))
    | Some e =>
        (Some (failed_response e),
         Build (<[job_key w :=
                    Job.set_message (err_message e)
                      (Job.set_status (JStr "error") (Job.set_progress p job))]>
                  (jobs s))
               (prototype s) (objects s))
    end.
Proof.
  intros Hk. unfold job_key in *. run_upload. unfold stage_failure.
  destruct (Upload.storage_upload w) as [[d er]|e]; simpl.
  2:{ exists (Job.progress job). rewrite (catch_some _ _ _ _ Hk). by destruct job. }
  destruct er as [csvError|]; simpl.
  { exists (Job.progress job). rewrite (catch_some _ _ _ _ Hk). by destruct job. }
  destruct d as [path|]; simpl.
  2:{ exists (Job.progress job). rewrite (catch_some _ _ _ _ Hk). by destruct job. }
  rewrite (assign_some _ _ _ _ _ Hk).
  rewrite (assign_some _ _ _ _ _ (lookup_insert_eq _ _ _)). simpl.
  rewrite insert_insert_eq.
  destruct (Upload.existsSync w), (Upload.unlinkSync w) as [[]|e];
    simpl; try (by exists 0).
  exists 40. by rewrite catch_insert.
Qed.

(** The later stages, on a store that has lost the record: the writes of
    the stage throw, the [catch] block has nothing to mark. *)
Lemma upload_stored_none (w : Upload.world) (req : Upload.request) (s : server) :
  jobs s !! job_key w = None →
  ∃ e, upload Stored w req s = (Some (failed_response e), s).
Proof.
  intros Hk. unfold job_key in *. run_upload.
  destruct (Upload.storage_upload w) as [[d er]|e]; simpl.
  2:{ eexists. by rewrite catch_none. }
  destruct er as [csvError|]; simpl; [eexists; by rewrite catch_none|].
  destruct d as [path|]; simpl; [|eexists; by rewrite catch_none].
  unfold assign at 1. rewrite Hk. eexists. by rewrite catch_none.
Qed.

(** The third stage. *)
Lemma upload_triggered (w : Upload.world) (req : Upload.request) (s : server) :
  upload Triggered w req s =
    match stage_failure Triggered w with
    | None =>
        (Some (Respond 200
                 (UploadStarted "success" "CSV uploaded & ML training started"
                                (job_key w))), s)
    | Some e => upload_catch (job_key w) e s
    end.
Proof.
  run_upload. unfold stage_failure.
  by destruct (Upload.axios_post w) as [n|e].
Qed.

(** Whatever happens, a stage of the upload route touches at most the
    record under the identifier it has drawn. *)
Lemma upload_store (st : stage) (w : Upload.world) (req : Upload.request)
    (s : server) :
  jobs (upload st w req s).2 = jobs s ∨
  ∃ job, jobs (upload st w req s).2 = <[job_key w := job]> (jobs s) ∧
         stage_status st (Job.status job).
Proof.
  destruct st.
  - destruct (Upload.csv req) as [csvPath|] eqn:Hcsv.
    2:{ left. destruct (upload_start_rejected w req s) as [m ->]; auto. }
    destruct (nonempty (Upload.email req)) as [email|] eqn:Hemail.
    2:{ left. destruct (upload_start_rejected w req s) as [m ->]; auto. }
    right. rewrite (upload_start_valid w req s email)
      by (split; [by rewrite Hcsv|done]).
    destruct (stage_failure Start w); eexists; (split; [reflexivity|]);
      simpl; auto.
  - destruct (jobs s !! job_key w) as [job|] eqn:Hk.
    + right. destruct (upload_stored_some w req s job Hk) as [p ->].
      destruct (stage_failure Stored w); eexists; (split; [reflexivity|]);
        simpl; auto.
    + left. by destruct (upload_stored_none w req s Hk) as [e ->].
  - rewrite upload_triggered. destruct (stage_failure Triggered w) as [e|].
    2:{ by left. }
    destruct (jobs s !! job_key w) as [job|] eqn:Hk.
    + right. rewrite (catch_some _ _ _ _ Hk). eexists. by split.
    + left. by rewrite catch_none.
Qed.

Lemma handle_upload (st : stage) (w : Upload.world) (req : Upload.request)
    (s : server) :
  (handle (Upload st w req) s).2 = (upload st w req s).2.
Proof. cbn [handle]. by destruct (upload st w req s). Qed.

Lemma handle_callback (body : option Body.t) (s : server) :
  (handle (Callback body) s).2 = (callback_handler body s).2.
Proof. cbn [handle]. by destruct (callback_handler body s). Qed.

Lemma handle_status (k : string) (s : server) : (handle (Status k) s).2 = s.
Proof.
  cbn [handle]. rewrite <- (status_read_only s k) at 2.
  by destruct (status_handler k s).
Qed.

(** ** Sequences of requests *)

Lemma run_cons (r : request) (rs : list request) (s : server) :
  run (r :: rs) s = run rs (handle r s).2.
Proof. reflexivity. Qed.

(** A request leaves alone the records it does not write. *)
Lemma handle_other (r : request) (s : server) (k : string) :
  writes r ≠ Some k → jobs (handle r s).2 !! k = jobs s !! k.
Proof.
  intros Hk. destruct r as [st w req|body|k0]; cbn [writes] in Hk.
  - rewrite handle_upload.
    destruct (upload_store st w req s) as [->|(job & -> & _)]; [done|].
    apply lookup_insert_ne. congruence.
  - rewrite handle_callback.
    destruct (callback_jobs body s) as [->|(b & k0 & job & -> & Hid & _ & ->)];
      [done|].
    apply lookup_insert_ne. simpl in Hk. congruence.
  - by rewrite handle_status.
Qed.

Lemma run_quiet (rs : list request) (s : server) (k : string) :
  quiet k rs → jobs (run rs s) !! k = jobs s !! k.
Proof.
  revert s. induction rs as [|r rs IH]; intros s Hrs; [done|].
  apply Forall_cons in Hrs as [Hr Hrs].
  rewrite run_cons, IH by done. by apply handle_other.
Qed.

(** No request removes a record. *)
Lemma handle_keeps (r : request) (s : server) (k : string) :
  is_Some (jobs s !! k) → is_Some (jobs (handle r s).2 !! k).
Proof.
  intros Hk. destruct (decide (writes r = Some k)) as [Hw|Hw].
  2:{ by rewrite handle_other. }
  destruct r as [st w req|body|k0]; cbn [writes] in Hw.
  - rewrite handle_upload.
    destruct (upload_store st w req s) as [->|(job & -> & _)]; [done|].
    injection Hw as ->. rewrite lookup_insert_eq. by eexists.
  - rewrite handle_callback.
    destruct (callback_jobs body s) as [->|(b & k0 & job & -> & Hid & _ & ->)];
      [done|].
    simpl in Hw. rewrite Hid in Hw. injection Hw as ->.
    rewrite lookup_insert_eq. by eexists.
  - done.
Qed.

(** C9, as the code has it.  A successful upload (file and email present,
    every step succeeds), while it is served no other request writes its
    job (no callback for it arrives before the route has answered), is
    answered with status "success" and the job identifier, and a status
    query for that identifier right after it returns a record with status
    "training" and a progress between 30 and 40. *)
Theorem upload_then_status (w : Upload.world) (req : Upload.request)
    (rs1 rs2 : list request) (s : server) (email : string) :
  valid req email → succeeds w →
  quiet (job_key w) rs1 → quiet (job_key w) rs2 →
  (upload_handler w req rs1 rs2 s).1 =
    Some (Respond 200
            (UploadStarted "success" "CSV uploaded & ML training started"
                           (job_key w))) ∧
  ∃ job,
    (status_handler (job_key w) (upload_handler w req rs1 rs2 s).2).1 =
      Returns (Respond 200 (JobJson job)) ∧
    Job.status job = JStr "training" ∧
    30 ≤ Job.progress job ≤ 40.
Proof.
  intros Hvalid Hsucceeds Hrs1 Hrs2.
  assert (∀ st, stage_failure st w = None) as Hok.
  { revert Hsucceeds. unfold succeeds, first_failure.
    intros Hnone [| |]; repeat case_match; congruence. }
  unfold upload_handler.
  rewrite (upload_start_valid w req s email Hvalid), (Hok Start).
  set (job0 := Job.Build (job_key w) (JStr "uploading") 10 email None None).
  set (s1 := Build (<[job_key w := job0]> (jobs s)) (prototype s) (objects s)).
  assert (jobs (run rs1 s1) !! job_key w = Some job0) as Hk1.
  { rewrite run_quiet by done. apply lookup_insert_eq. }
  destruct (upload_stored_some w req _ job0 Hk1) as [p ->].
  rewrite (Hok Stored).
  set (job1 := Job.set_progress 40 (Job.set_status (JStr "training") job0)).
  set (s2 := Build (<[job_key w := job1]> (jobs (run rs1 s1)))
                   (prototype (run rs1 s1)) (objects (run rs1 s1))).
  assert (jobs (run rs2 s2) !! job_key w = Some job1) as Hk2.
  { rewrite run_quiet by done. apply lookup_insert_eq. }
  rewrite upload_triggered, (Hok Triggered). split; [reflexivity|].
  exists job1. simpl. rewrite (status_known _ _ _ "training" Hk2) by done.
  repeat split; simpl; lia.
Qed.

Lemma upload_then_status_scenario :
  (upload_handler Scenario.world Scenario.request
     Scenario.others Scenario.others init).1 =
    Some (Respond 200
            (UploadStarted "success" "CSV uploaded & ML training started"
                           (job_key Scenario.world))) ∧
  ∃ job,
    (status_handler (job_key Scenario.world)
       (upload_handler Scenario.world Scenario.request
          Scenario.others Scenario.others init).2).1 =
      Returns (Respond 200 (JobJson job)) ∧
    Job.status job = JStr "training" ∧
    30 ≤ Job.progress job ≤ 40.
Proof.
  apply (upload_then_status Scenario.world Scenario.request
           Scenario.others Scenario.others init "a@b.com").
  - split; [by eexists|reflexivity].
  - reflexivity.
  - repeat constructor; vm_compute; discriminate.
  - repeat constructor; vm_compute; discriminate.
Defined.

(** C9, as the specification has it, fails.  The trainer has the
    identifier of the job from the moment the route calls it, and the
    callback route takes a callback at any time: one that is served while
    the upload route still waits for the answer of the trainer completes
    the job, and the status query right after the successful upload
    returns it with status "completed" and progress 100. *)
Lemma callback_before_answer :
  valid Scenario.request "a@b.com" ∧ succeeds Scenario.world ∧
  (status_handler (job_key Scenario.world)
     (upload_handler Scenario.world Scenario.request
        [] [Callback (Some Scenario.great_fit)] init).2).1 =
    Returns (Respond 200 (JobJson Scenario.completed_job)) ∧
  ¬ training_after_upload Scenario.world Scenario.request
      [] [Callback (Some Scenario.great_fit)] init.
Proof.
  split; [split; [by eexists|reflexivity]|].
  split; [reflexivity|].
  assert ((status_handler (job_key Scenario.world)
             (upload_handler Scenario.world Scenario.request
                [] [Callback (Some Scenario.great_fit)] init).2).1 =
            Returns (Respond 200 (JobJson Scenario.completed_job))) as Hdone
    by (vm_compute; reflexivity).
  split; [exact Hdone|].
  intros (_ & job & Hjob & Hst & _). rewrite Hdone in Hjob.
  injection Hjob as <-. discriminate Hst.
Qed.

Lemma run_keeps (rs : list request) (s : server) (k : string) :
  is_Some (jobs s !! k) → is_Some (jobs (run rs s) !! k).
Proof.
  revert s. induction rs as [|r rs IH]; intros s Hk; [done|].
  rewrite run_cons. by apply IH, handle_keeps.
Qed.

(** A stage that fails on a store that has the record of its upload. *)
Lemma upload_stage_failure (st : stage) (w : Upload.world)
    (req : Upload.request) (s : server) (email : string) (e : error) :
  valid req email → created st w s → stage_failure st w = Some e →
  ∃ job, upload st w req s =
           (Some (failed_response e),
            Build (<[job_key w := job]> (jobs s)) (prototype s) (objects s)) ∧
         Job.status job = JStr "error" ∧
         Job.message job = Some (err_message e).
Proof.
  intros Hvalid Hcreated Hfail. destruct st; simpl in Hcreated.
  - rewrite (upload_start_valid w req s email Hvalid), Hfail. by eexists.
  - destruct Hcreated as [job Hk].
    destruct (upload_stored_some w req s job Hk) as [p ->].
    rewrite Hfail. by eexists.
  - destruct Hcreated as [job Hk].
    rewrite upload_triggered, Hfail, (catch_some _ _ _ _ Hk). by eexists.
Qed.

(** C4.  On an upload whose record has been created (file and email
    present), a failure of any later step (reading the file, the storage
    upload, the removal of the local file, the trainer call, be it a
    timeout or an answer outside 2xx), whatever requests are served while
    the route waits, marks the record with status "error" and the message
    of the failure, is answered with HTTP 500 and a body that carries that
    message, and leaves the record in the store, where the status route
    returns it. *)
Theorem upload_failure_marks_job (w : Upload.world) (req : Upload.request)
    (rs1 rs2 : list request) (s : server) (email : string) (e : error) :
  valid req email → first_failure w = Some e →
  (upload_handler w req rs1 rs2 s).1 =
    Some (Respond 500
            (UploadFailed "error" ("Upload process failed: " +:+ err_message e)
                          (detail_of e))) ∧
  ∃ job,
    jobs (upload_handler w req rs1 rs2 s).2 !! job_key w = Some job ∧
    Job.status job = JStr "error" ∧
    Job.message job = Some (err_message e) ∧
    (status_handler (job_key w) (upload_handler w req rs1 rs2 s).2).1 =
      Returns (Respond 200 (JobJson job)).
Proof.
  intros Hvalid Hfail.
  assert (∃ job, upload_handler w req rs1 rs2 s =
            (Some (failed_response e),
             Build (<[job_key w := job]>
                      (jobs (upload_handler w req rs1 rs2 s).2))
                   (prototype (upload_handler w req rs1 rs2 s).2)
                   (objects (upload_handler w req rs1 rs2 s).2)) ∧
            Job.status job = JStr "error" ∧
            Job.message job = Some (err_message e))
    as (job & Hrun & Hst & Hmsg).
  { unfold upload_handler, first_failure in *.
    destruct (stage_failure Start w) as [e0|] eqn:Hstart.
    { injection Hfail as ->.
      destruct (upload_stage_failure Start w req s email e Hvalid I Hstart)
        as (job & -> & ? & ?).
      exists job. simpl. by rewrite insert_insert_eq. }
    rewrite (upload_start_valid w req s email Hvalid), Hstart.
    match goal with |- context [run rs1 ?s0] => set (s1 := run rs1 s0) end.
    assert (created Stored w s1) as Hk1.
    { apply run_keeps. simpl. rewrite lookup_insert_eq. by eexists. }
    destruct (stage_failure Stored w) as [e0|] eqn:Hstored.
    { injection Hfail as ->.
      destruct (upload_stage_failure Stored w req s1 email e Hvalid Hk1 Hstored)
        as (job & -> & ? & ?).
      exists job. simpl. by rewrite insert_insert_eq. }
    destruct Hk1 as [job1 Hk1].
    destruct (upload_stored_some w req s1 job1 Hk1) as [p ->].
    rewrite Hstored.
    match goal with |- context [run rs2 ?s0] => set (s2 := run rs2 s0) end.
    assert (created Triggered w s2) as Hk2.
    { apply run_keeps. simpl. rewrite lookup_insert_eq. by eexists. }
    destruct (upload_stage_failure Triggered w req s2 email e Hvalid Hk2 Hfail)
      as (job & -> & ? & ?).
    exists job. simpl. by rewrite insert_insert_eq. }
  rewrite Hrun. split; [reflexivity|]. exists job. simpl.
  rewrite lookup_insert_eq. repeat split; try done.
  erewrite (status_known _ _ _ "error"); [reflexivity| |done].
  apply lookup_insert_eq.
Qed.

Lemma upload_failure_marks_job_timeout :
  (upload_handler Scenario.world_timeout Scenario.request
     Scenario.others [Callback (Some Scenario.great_fit)] Scenario.trained).1 =
    Some (Respond 500
            (UploadFailed "error"
               ("Upload process failed: " +:+ err_message Scenario.timeout)
               (detail_of Scenario.timeout))) ∧
  ∃ job,
    jobs (upload_handler Scenario.world_timeout Scenario.request
            Scenario.others [Callback (Some Scenario.great_fit)]
            Scenario.trained).2
      !! job_key Scenario.world_timeout = Some job ∧
    Job.status job = JStr "error" ∧
    Job.message job = Some (err_message Scenario.timeout) ∧
    (status_handler (job_key Scenario.world_timeout)
       (upload_handler Scenario.world_timeout Scenario.request
          Scenario.others [Callback (Some Scenario.great_fit)]
          Scenario.trained).2).1 =
      Returns (Respond 200 (JobJson job)).
Proof.
  apply (upload_failure_marks_job Scenario.world_timeout Scenario.request
           Scenario.others [Callback (Some Scenario.great_fit)] Scenario.trained
           "a@b.com" Scenario.timeout).
  - split; [by eexists|reflexivity].
  - reflexivity.
Defined.

(** ** The order of the statuses *)

Lemma rank_bound (v : jsval) (n : nat) : rank v = Some n → (n ≤ 2)%nat.
Proof.
  destruct v as [|[]|]; simpl; try done.
  repeat case_match; intros [= <-]; lia.
Qed.

Lemma stage_status_rank (st : stage) (v : jsval) :
  stage_status st v → ∃ n, rank v = Some n ∧
    match st with
    | Start => True
    | Stored => (1 ≤ n)%nat
    | Triggered => n = 2%nat
    end.
Proof.
  destruct st; simpl; [intros [->| ->]|intros [->| ->]|intros ->];
    eexists; (split; [reflexivity|]); lia || done.
Qed.

Lemma step_forward (r : request) (s : server) (k : string) (job : Job.t) (n : nat) :
  in_protocol r s → jobs s !! k = Some job → rank (Job.status job) = Some n →
  ∃ job' n', jobs (handle r s).2 !! k = Some job' ∧
             rank (Job.status job') = Some n' ∧ (n ≤ n')%nat.
Proof.
  intros Hr Hk Hn.
  destruct (decide (writes r = Some k)) as [Hw|Hw].
  2:{ exists job, n. by rewrite handle_other. }
  destruct r as [st w req|body|k0]; cbn [writes] in Hw; [| |done].
  - injection Hw as <-. rewrite handle_upload.
    destruct (upload_store st w req s) as [->|(job' & -> & Hst)].
    { exists job, n. by repeat split. }
    rewrite lookup_insert_eq.
    destruct (stage_status_rank st _ Hst) as (n' & Hn' & Hstage).
    exists job', n'. repeat split; [done|].
    destruct st; cbn [in_protocol] in Hr.
    + congruence.
    + rewrite (Hr job Hk) in Hn. injection Hn as <-. lia.
    + apply rank_bound in Hn. lia.
  - rewrite handle_callback.
    destruct (callback_jobs body s)
      as [->|(b & k0 & job0 & -> & Hid & Hk0 & ->)].
    { exists job, n. by repeat split. }
    simpl in Hw. rewrite Hid in Hw. injection Hw as ->.
    rewrite lookup_insert_eq.
    eexists _, 2%nat. split; [reflexivity|].
    split; [exact Hr|]. by apply rank_bound in Hn.
Qed.

Lemma run_app (rs1 rs2 : list request) (s : server) :
  run (rs1 ++ rs2) s = run rs2 (run rs1 s).
Proof. unfold run. apply foldl_app. Qed.

Lemma all_in_protocol_app (rs1 rs2 : list request) (s : server) :
  all_in_protocol (rs1 ++ rs2) s →
  all_in_protocol rs1 s ∧ all_in_protocol rs2 (run rs1 s).
Proof.
  revert s. induction rs1 as [|r rs1 IH]; intros s; simpl; [done|].
  intros [Hr Hrs]. destruct (IH _ Hrs) as [H1 H2]. by repeat split.
Qed.

Lemma run_forward (rs : list request) (s : server) :
  all_in_protocol rs s → never_backward s rs.
Proof.
  revert s. induction rs as [|r rs IH]; intros s Hrs k job n Hk Hn.
  - exists job, n. by repeat split.
  - destruct Hrs as [Hr Hrs]. rewrite run_cons.
    destruct (step_forward r s k job n Hr Hk Hn) as (job1 & n1 & Hk1 & Hn1 & Hle).
    destruct (IH _ Hrs k job1 n1 Hk1 Hn1) as (job' & n' & Hk' & Hn' & Hle' & _).
    exists job', n'. repeat split; [done|done|lia|].
    unfold terminal. rewrite Hn, Hn'. intros [= ->]. f_equal.
    apply rank_bound in Hn'. lia.
Qed.

(** C1, as the code has it.  Along requests that keep to the protocol
    (every upload draws an unused identifier, no callback reaches a job
    before its upload has set it to training, every callback reports a
    terminal status or none), between any two moments the status of a job
    does not move backward in the order uploading → training →
    {completed | error}, and a terminal status stays terminal. *)
Theorem status_never_backward (rs1 rs2 : list request) (s : server) :
  all_in_protocol (rs1 ++ rs2) s → never_backward (run rs1 s) rs2.
Proof.
  intros Hrs. apply run_forward. by apply all_in_protocol_app in Hrs as [_ Hrs].
Qed.

Lemma status_never_backward_scenario :
  never_backward
    (run [ Upload Start Scenario.world Scenario.request;
           Status Scenario.jobId;
           Upload Stored Scenario.world Scenario.request;
           Upload Triggered Scenario.world Scenario.request ] init)
    [ Status Scenario.jobId;
      Upload Start Scenario.world_timeout Scenario.request;
      Callback (Some Scenario.stale);
      Upload Stored Scenario.world_timeout Scenario.request;
      Callback (Some Scenario.great_fit);
      Upload Triggered Scenario.world_timeout Scenario.request;
      Callback (Some Scenario.failed);
      Status Scenario.jobId ].
Proof.
  apply (status_never_backward
           [ Upload Start Scenario.world Scenario.request;
             Status Scenario.jobId;
             Upload Stored Scenario.world Scenario.request;
             Upload Triggered Scenario.world Scenario.request ]
           [ Status Scenario.jobId;
             Upload Start Scenario.world_timeout Scenario.request;
             Callback (Some Scenario.stale);
             Upload Stored Scenario.world_timeout Scenario.request;
             Callback (Some Scenario.great_fit);
             Upload Triggered Scenario.world_timeout Scenario.request;
             Callback (Some Scenario.failed);
             Status Scenario.jobId ] init).
  vm_compute. repeat split; by intros job [= <-].
Defined.

(** C1, as the specification has it, fails: a callback that reports
    "error" for a completed job turns its status into "error", and one that
    reports "training" moves it back to "training". *)
Lemma terminal_status_overwritten :
  ¬ terminal_is_final Scenario.completed [Callback (Some Scenario.failed)] ∧
  ¬ never_backward Scenario.completed [Callback (Some Scenario.retrain)].
Proof.
  split.
  - intros Hfinal.
    destruct (Hfinal Scenario.jobId Scenario.completed_job) as (job' & Hk & Hst).
    + vm_compute. reflexivity.
    + reflexivity.
    + vm_compute in Hk. injection Hk as <-. discriminate Hst.
  - intros Hforward.
    destruct (Hforward Scenario.jobId Scenario.completed_job 2%nat)
      as (job' & n' & Hk & Hn' & Hle & _).
    + vm_compute. reflexivity.
    + reflexivity.
    + vm_compute in Hk. injection Hk as <-. vm_compute in Hn'.
      injection Hn' as <-. lia.
Qed.

(** ** [result] and the completed status *)

Lemma stage_status_not_completed (st : stage) (v : jsval) :
  stage_status st v → v ≠ JStr "completed".
Proof. destruct st; simpl; intros H; intros ->; destruct_or?; discriminate. Qed.

Lemma step_completed_has_result (r : request) (s : server) :
  completed_has_result s → completed_has_result (handle r s).2.
Proof.
  intros Hs k job. destruct (decide (writes r = Some k)) as [Hw|Hw].
  2:{ rewrite handle_other by done. apply Hs. }
  destruct r as [st w req|body|k0]; cbn [writes] in Hw; [| |done].
  - injection Hw as <-. rewrite handle_upload.
    destruct (upload_store st w req s) as [->|(job' & -> & Hst)]; [apply Hs|].
    rewrite lookup_insert_eq. intros [= <-] Hdone.
    by apply stage_status_not_completed in Hst.
  - rewrite handle_callback.
    destruct (callback_jobs body s)
      as [->|(b & k0 & job0 & -> & Hid & _ & ->)]; [apply Hs|].
    simpl in Hw. rewrite Hid in Hw. injection Hw as ->.
    rewrite lookup_insert_eq. intros [= <-] _. by eexists.
Qed.

Lemma run_completed_has_result (rs : list request) (s : server) :
  completed_has_result s → completed_has_result (run rs s).
Proof.
  revert s. induction rs as [|r rs IH]; intros s Hs; [done|].
  rewrite run_cons. by apply IH, step_completed_has_result.
Qed.

(** C2, as the code has it.  After any sequence of requests served from
    the empty store, a record whose status is "completed" has its
    result. *)
Theorem result_of_completed (rs : list request) :
  completed_has_result (run rs init).
Proof. by apply run_completed_has_result. Qed.

(** C2, as the specification has it, fails: after an upload and a callback
    that reports "error", the record has a result and its status is
    "error". *)
Lemma result_with_error_status :
  ¬ result_iff_completed
      (callback_handler (Some Scenario.failed) Scenario.trained).2.
Proof.
  intros Hiff.
  pose (job := Job.Build Scenario.jobId (JStr "error") 100 "a@b.com" None
                 (Some (Result.Build None (Some (JStr "Training failed"))))).
  assert (Job.status job = JStr "completed") as Hst; [|discriminate Hst].
  apply (Hiff Scenario.jobId job); [|by eexists].
  vm_compute. reflexivity.
Qed.

End ServerProofs.

(** * Properties of the polling client *)

Module ClientProofs.
Import Client ClientSpec.

Lemma ticks_snoc (rs : list poll_reply) (r : poll_reply) (c : state) :
  ticks (rs ++ [r]) c = tick r (ticks rs c).
Proof. unfold ticks. by rewrite foldl_app. Qed.

Example waiting_reached :
  submitted (Accepted (Some Scenario.jobId)) <$> submit filled = Some waiting.
Proof. reflexivity. Qed.

Lemma polling_training (c : state) : polling c = true → status c = "training".
Proof.
  unfold polling. intros [Hst _]%andb_prop. by apply String.eqb_eq.
Qed.

Lemma strict_eq_true (a b : jsval) : strict_eq a b = true → a = b.
Proof. unfold strict_eq. apply bool_decide_eq_true_1. Qed.

Lemma submitted_progress (c c1 : state) (u : upload_reply) :
  submit c = Some c1 →
  progress c1 = 10 ∧ 10 ≤ progress (submitted u c1) ≤ 30.
Proof.
  unfold submit. destruct (csv c); [|done].
  destruct (String.eqb (email c) ""); [done|]. intros [= <-].
  destruct u; simpl; lia.
Qed.

(** The handling of a reply takes the bar above 95 only when the reply
    carries the status "completed". *)
Lemma bounded_tick (rs : list poll_reply) (r : poll_reply) (c : state) :
  bounded rs c → bounded (rs ++ [r]) (tick r c).
Proof.
  intros Hseen.
  assert (progress c ≤ 95 ∨ ∃ res, Data (JStr "completed") res ∈ rs ++ [r])
    as Hseen'.
  { destruct Hseen as [?|[res Hin]]; [by left|right].
    exists res. apply elem_of_app. by left. }
  unfold tick. destruct r as [st res|]; [|done].
  destruct (strict_eq st (JStr "completed")) eqn:Hdone.
  { apply strict_eq_true in Hdone as ->.
    right. exists res. apply elem_of_app. right. by apply list_elem_of_singleton. }
  destruct (strict_eq st (JStr "error")); [done|].
  left. simpl. lia.
Qed.

Lemma bounded_ticks (rs : list poll_reply) (c : state) :
  progress c ≤ 95 → bounded rs (ticks rs c).
Proof.
  intros Hc. induction rs as [|r rs IH] using rev_ind.
  - by left.
  - rewrite ticks_snoc. by apply bounded_tick.
Qed.

Lemma none_completed_bounded (rs : list poll_reply) (c : state) :
  none_completed rs → bounded rs c → progress c ≤ 95.
Proof.
  intros Hnone [Hle|[res Hin]]; [done|].
  unfold none_completed in Hnone. rewrite Forall_forall in Hnone.
  specialize (Hnone _ Hin). simpl in Hnone.
  unfold strict_eq in Hnone. by rewrite bool_decide_eq_true_2 in Hnone.
Qed.

(** From 95 or below, the handling of a reply does not lower the bar. *)
Lemma tick_monotone (r : poll_reply) (c : state) :
  progress c ≤ 95 → progress c ≤ progress (tick r c).
Proof.
  intros Hc. unfold tick. destruct r as [st res|]; [|done].
  repeat case_match; simpl; lia.
Qed.

(** C8, as the code has it.  Within one submission ([handleSubmit], the
    answer of the upload route, then the replies [rs] of the polls, in the
    order in which they are handled, and one more reply [r]) the displayed
    progress does not decrease as long as no reply has carried the status
    "completed", and it is 100 only after one has.  The handling of a
    reply with a non-terminal status advances the progress by 2, capped at
    95, and a poll that fails leaves it as it is. *)
Theorem progress_in_lifecycle (c c1 : state) (u : upload_reply)
    (rs : list poll_reply) (r : poll_reply) :
  submit c = Some c1 →
  progress c1 ≤ progress (submitted u c1) ∧
  (none_completed rs →
   progress (ticks rs (submitted u c1))
     ≤ progress (tick r (ticks rs (submitted u c1)))) ∧
  (progress (ticks rs (submitted u c1)) = 100 →
   ∃ res, Data (JStr "completed") res ∈ rs) ∧
  (non_terminal r →
   progress (tick r (ticks rs (submitted u c1))) =
     match r with
     | Data _ _ => advance (progress (ticks rs (submitted u c1)))
     | Failed => progress (ticks rs (submitted u c1))
     end).
Proof.
  intros Hc. destruct (submitted_progress c c1 u Hc) as [Hc1 Hstart].
  assert (bounded rs (ticks rs (submitted u c1))) as Hseen
    by (apply bounded_ticks; lia).
  repeat split.
  - lia.
  - intros Hnone. by apply tick_monotone, (none_completed_bounded rs).
  - intros H100. destruct Hseen as [Hle|Hin]; [lia|done].
  - intros [Hnc Hne]. unfold tick.
    destruct r as [st res|]; [|done].
    simpl in Hnc, Hne. by rewrite Hnc, Hne.
Qed.

Lemma progress_in_lifecycle_scenario :
  progress uploading ≤ progress waiting ∧
  (none_completed [Failed; Data (JStr "training") None] →
   progress (ticks [Failed; Data (JStr "training") None] waiting)
     ≤ progress (tick (Data (JStr "training") None)
                   (ticks [Failed; Data (JStr "training") None] waiting))) ∧
  (progress (ticks [Failed; Data (JStr "training") None] waiting) = 100 →
   ∃ res, Data (JStr "completed") res ∈ [Failed; Data (JStr "training") None]) ∧
  (non_terminal (Data (JStr "training") None) →
   progress (tick (Data (JStr "training") None)
               (ticks [Failed; Data (JStr "training") None] waiting)) =
     advance (progress (ticks [Failed; Data (JStr "training") None] waiting))).
Proof.
  apply (progress_in_lifecycle filled uploading
           (Accepted (Some Scenario.jobId))
           [Failed; Data (JStr "training") None]
           (Data (JStr "training") None)).
  reflexivity.
Defined.

(** The replies of that scenario are such as the theorem asks for. *)
Example progress_in_lifecycle_applies :
  none_completed [Failed; Data (JStr "training") None] ∧
  non_terminal (Data (JStr "training") None).
Proof. split; [by repeat constructor|by split]. Qed.

(** C8, as the specification has it, fails twice.  On a poll that fails
    in transport the [catch] of the effect only logs, and the progress
    stays at 30 instead of moving to 32.  And the progress decreases: the
    interval sends a request every three seconds without waiting for the
    reply to the one before, so a reply with status "training" can arrive
    after the one with status "completed"; it is handled all the same, and
    takes the bar from 100 back to 95. *)
Lemma progress_claim_fails :
  ¬ poll_advances waiting Failed ∧
  ¬ never_decreases waiting
      [Data (JStr "completed") None; Data (JStr "training") None].
Proof.
  split.
  - intros Hadv. assert (30 = 32) as Habs; [|lia].
    apply Hadv; [reflexivity|by split].
  - intros Hmono.
    specialize (Hmono [Data (JStr "completed") None]
                      (Data (JStr "training") None) [] eq_refl).
    vm_compute in Hmono. by apply Hmono.
Qed.

End ClientProofs.

(** * More properties of the server *)

Module ServerExtra.
Import Server Spec Invariant ServerProofs.

#[local] Arguments uuidv4 : simpl never.
#[local] Arguments upload_catch : simpl never.

Lemma nonempty_Some (o : option string) (x : string) :
  nonempty o = Some x → o = Some x ∧ x ≠ "".
Proof.
  destruct o as [y|]; simpl; [|done].
  destruct (String.eqb_spec y ""); [done|]. by intros [= ->].
Qed.

(** What a stage of the upload route does to the store: nothing, a new
    record under its key (first stage), or new values for [status],
    [progress] and [message] of the record under its key. *)
Lemma upload_effect (st : stage) (w : Upload.world) (req : Upload.request)
    (s : server) :
  prototype (upload st w req s).2 = prototype s ∧
  (jobs (upload st w req s).2 = jobs s ∨
   (st = Start ∧
    ∃ email status message,
      nonempty (Upload.email req) = Some email ∧
      (status = JStr "uploading" ∨ status = JStr "error") ∧
      jobs (upload st w req s).2 =
        <[job_key w := Job.Build (job_key w) status 10 email message None]>
          (jobs s)) ∨
   (st ≠ Start ∧
    ∃ job job',
      jobs s !! job_key w = Some job ∧
      jobs (upload st w req s).2 = <[job_key w := job']> (jobs s) ∧
      Job.id job' = Job.id job ∧ Job.email job' = Job.email job ∧
      Job.result job' = Job.result job ∧
      (Job.progress job' = Job.progress job ∨ Job.progress job' = 40) ∧
      (Job.status job' = JStr "training" ∨ Job.status job' = JStr "error"))).
Proof.
  destruct st.
  - destruct (Upload.csv req) as [csvPath|] eqn:Hcsv.
    2:{ destruct (upload_start_rejected w req s) as [m ->]; auto. }
    destruct (nonempty (Upload.email req)) as [email|] eqn:Hemail.
    2:{ destruct (upload_start_rejected w req s) as [m ->]; auto. }
    rewrite (upload_start_valid w req s email)
      by (split; [by rewrite Hcsv|done]).
    destruct (stage_failure Start w); (split; [done|]); right; left;
      (split; [done|]); eexists email, _, _; repeat split; auto.
  - destruct (jobs s !! job_key w) as [job|] eqn:Hk.
    2:{ destruct (upload_stored_none w req s Hk) as [e ->]; auto. }
    assert (∃ job', upload Stored w req s =
                      (match stage_failure Stored w with
                       | Some e => Some (failed_response e)
                       | None => None
                       end,
                       Build (<[job_key w := job']> (jobs s)) (prototype s)
                             (objects s)) ∧
              Job.id job' = Job.id job ∧ Job.email job' = Job.email job ∧
              Job.result job' = Job.result job ∧
              (Job.progress job' = Job.progress job ∨ Job.progress job' = 40) ∧
              (Job.status job' = JStr "training" ∨ Job.status job' = JStr "error"))
      as (job' & -> & ?).
    { unfold job_key in *. run_upload. unfold stage_failure.
      destruct (Upload.storage_upload w) as [[d er]|e]; simpl.
      2:{ rewrite (catch_some _ _ _ _ Hk). eexists. split; [done|].
          simpl. auto 10. }
      destruct er as [csvError|]; simpl.
      { rewrite (catch_some _ _ _ _ Hk). eexists. split; [done|].
        simpl. auto 10. }
      destruct d as [path|]; simpl.
      2:{ rewrite (catch_some _ _ _ _ Hk). eexists. split; [done|].
          simpl. auto 10. }
      rewrite (assign_some _ _ _ _ _ Hk).
      rewrite (assign_some _ _ _ _ _ (lookup_insert_eq _ _ _)). simpl.
      rewrite insert_insert_eq.
      destruct (Upload.existsSync w), (Upload.unlinkSync w) as [[]|e]; simpl;
        rewrite ?catch_insert; eexists; (split; [done|]); simpl; auto 10. }
    split; [done|]. right; right. split; [done|]. by exists job, job'.
  - rewrite upload_triggered. destruct (stage_failure Triggered w) as [e|].
    2:{ auto. }
    destruct (jobs s !! job_key w) as [job|] eqn:Hk.
    + rewrite (catch_some _ _ _ _ Hk). split; [done|]. right; right.
      split; [done|]. eexists job, _. split; [done|]. split; [done|].
      simpl. auto 10.
    + rewrite catch_none by done. auto.
Qed.

Lemma upload_validation_answer (w : Upload.world) (req : Upload.request)
    (rs1 rs2 : list request) (s : server) :
  Upload.csv req = None ∨ nonempty (Upload.email req) = None →
  upload_handler w req rs1 rs2 s =
    (Some (Respond 400
             (Message (match Upload.csv req with
                       | Some _ => "Email is required"
                       | None => "CSV file is required"
                       end))),
     s).
Proof.
  intros Hbad. unfold upload_handler. run_upload.
  destruct (Upload.csv req); [|done].
  destruct Hbad as [Hbad|Hbad]; [done|]. by rewrite Hbad.
Qed.

(** X1.  Validation of the upload route: without a file, or with a file
    but without a non-empty email, the route answers 400 with the message
    of the missing part (the file is checked first), creates no job and
    leaves the store as it is. *)
Theorem upload_validation (w : Upload.world) (req : Upload.request)
    (rs1 rs2 : list request) (s : server) :
  Upload.csv req = None ∨ nonempty (Upload.email req) = None →
  upload_handler w req rs1 rs2 s =
    (Some (Respond 400
             (Message (match Upload.csv req with
                       | Some _ => "Email is required"
                       | None => "CSV file is required"
                       end))),
     s).
Proof. apply upload_validation_answer. Qed.

Lemma upload_validation_no_email :
  upload_handler Scenario.world
    (Upload.Request (Some "uploads/data.csv") (Some ""))
    Scenario.others Scenario.others Scenario.trained =
    (Some (Respond 400 (Message "Email is required")), Scenario.trained).
Proof.
  apply (upload_validation Scenario.world
           (Upload.Request (Some "uploads/data.csv") (Some ""))
           Scenario.others Scenario.others Scenario.trained).
  right. reflexivity.
Defined.

(** X2.  While an accepted upload waits for the storage, its record is in
    the store: the status route returns it with status "uploading",
    progress 10, the identifier drawn and the email submitted, whatever
    was stored under that identifier before and whatever requests for
    other jobs are served in between. *)
Theorem uploading_is_visible (w : Upload.world) (req : Upload.request)
    (rs : list request) (s : server) (email : string) :
  valid req email → stage_failure Start w = None → quiet (job_key w) rs →
  (upload Start w req s).1 = None ∧
  status_handler (job_key w) (run rs (upload Start w req s).2) =
    (Returns
       (Respond 200
          (JobJson (Job.Build (job_key w) (JStr "uploading") 10 email
                              None None))),
     run rs (upload Start w req s).2).
Proof.
  intros Hvalid Hok Hrs.
  rewrite (upload_start_valid w req s email Hvalid), Hok. split; [done|].
  apply (status_known _ _ _ "uploading"); [|done].
  rewrite run_quiet by done. apply lookup_insert_eq.
Qed.

Lemma uploading_is_visible_scenario :
  (upload Start Scenario.world Scenario.request init).1 = None ∧
  status_handler (job_key Scenario.world)
    (run Scenario.others (upload Start Scenario.world Scenario.request init).2) =
    (Returns
       (Respond 200
          (JobJson (Job.Build (job_key Scenario.world) (JStr "uploading") 10
                              "a@b.com" None None))),
     run Scenario.others (upload Start Scenario.world Scenario.request init).2).
Proof.
  apply (uploading_is_visible Scenario.world Scenario.request Scenario.others
           init "a@b.com").
  - split; [by eexists|reflexivity].
  - reflexivity.
  - repeat constructor; vm_compute; discriminate.
Defined.

(** The answer of the whole route, for a submission that passes the
    validation. *)
Lemma upload_handler_answer (w : Upload.world) (req : Upload.request)
    (rs1 rs2 : list request) (s : server) (email : string) :
  valid req email →
  (upload_handler w req rs1 rs2 s).1 =
    Some (match first_failure w with
          | Some e => failed_response e
          | None =>
              Respond 200
                (UploadStarted "success" "CSV uploaded & ML training started"
                               (job_key w))
          end).
Proof.
  intros Hvalid. unfold upload_handler, first_failure.
  rewrite (upload_start_valid w req s email Hvalid).
  destruct (stage_failure Start w) as [e|]; [done|].
  match goal with |- context [run rs1 ?s0] => set (s1 := run rs1 s0) end.
  assert (is_Some (jobs s1 !! job_key w)) as [job1 Hk1].
  { apply run_keeps. simpl. rewrite lookup_insert_eq. by eexists. }
  destruct (upload_stored_some w req s1 job1 Hk1) as [p ->].
  destruct (stage_failure Stored w) as [e|]; [done|].
  rewrite upload_triggered.
  destruct (stage_failure Triggered w) as [e|]; [|done].
  unfold upload_catch. by destruct (jobs _ !! _).
Qed.

(** X3.  The answer of the upload route depends on the request and on the
    outcomes of its own calls only: for an accepted submission it is the
    500 of the first step that fails, or the 200 with the job identifier,
    whatever the store holds and whatever requests (callbacks for this very
    job included) are served while the route waits. *)
Theorem upload_answer_independent (w : Upload.world) (req : Upload.request)
    (rs1 rs2 rs1' rs2' : list request) (s s' : server) (email : string) :
  valid req email →
  (upload_handler w req rs1 rs2 s).1 = (upload_handler w req rs1' rs2' s').1 ∧
  ∃ res, (upload_handler w req rs1 rs2 s).1 = Some res ∧
         (code res = 200 ∨ code res = 500) ∧
         (code res = 200 ↔ first_failure w = None).
Proof.
  intros Hvalid.
  rewrite !(upload_handler_answer w req _ _ _ email Hvalid).
  split; [done|]. eexists. split; [done|].
  destruct (first_failure w); simpl; split; auto; split; done.
Qed.

Lemma upload_answer_independent_scenario :
  (upload_handler Scenario.world_timeout Scenario.request
     Scenario.others [Callback (Some Scenario.great_fit)] Scenario.trained).1 =
    (upload_handler Scenario.world_timeout Scenario.request [] [] init).1 ∧
  ∃ res, (upload_handler Scenario.world_timeout Scenario.request
            Scenario.others [Callback (Some Scenario.great_fit)]
            Scenario.trained).1
           = Some res ∧
         (code res = 200 ∨ code res = 500) ∧
         (code res = 200 ↔ first_failure Scenario.world_timeout = None).
Proof.
  apply (upload_answer_independent Scenario.world_timeout Scenario.request
           Scenario.others [Callback (Some Scenario.great_fit)] [] []
           Scenario.trained init "a@b.com").
  split; [by eexists|reflexivity].
Defined.

(** X4.  Frame of the [catch] block on a failure of the trainer call: the
    record of the upload gets status "error" and the message of the
    failure, and keeps its identifier, email, progress and result (a job
    that a callback has completed in the meantime keeps its result under
    status "error"); no other record changes. *)
Theorem trainer_failure_frame (w : Upload.world) (req : Upload.request)
    (s : server) (job : Job.t) (e : error) :
  jobs s !! job_key w = Some job → stage_failure Triggered w = Some e →
  (upload Triggered w req s).2 =
    Build (<[job_key w :=
               Job.Build (Job.id job) (JStr "error") (Job.progress job)
                         (Job.email job) (Some (err_message e))
                         (Job.result job)]> (jobs s))
          (prototype s) (objects s).
Proof.
  intros Hk Hfail. by rewrite upload_triggered, Hfail, (catch_some _ _ _ _ Hk).
Qed.

Lemma trainer_failure_frame_scenario :
  (upload Triggered
     (Upload.World 7 (Returns ()) (Upload.storage_upload Scenario.world)
                   (Upload.publicUrl Scenario.world)
                   true (Returns ()) (Throws Scenario.timeout))
     Scenario.request Scenario.completed).2 =
    Build (<[Scenario.jobId :=
               Job.Build (Job.id Scenario.completed_job) (JStr "error")
                         (Job.progress Scenario.completed_job)
                         (Job.email Scenario.completed_job)
                         (Some (err_message Scenario.timeout))
                         (Job.result Scenario.completed_job)]>
             (jobs Scenario.completed))
          (prototype Scenario.completed) (objects Scenario.completed).
Proof.
  apply (trainer_failure_frame
           (Upload.World 7 (Returns ()) (Upload.storage_upload Scenario.world)
                         (Upload.publicUrl Scenario.world)
                         true (Returns ()) (Throws Scenario.timeout))
           Scenario.request Scenario.completed Scenario.completed_job
           Scenario.timeout).
  - vm_compute. reflexivity.
  - reflexivity.
Defined.

(** ** Invariants of the store *)

Lemma run_invariant (P : server → Prop) :
  (∀ r s, P s → P (handle r s).2) → ∀ rs s, P s → P (run rs s).
Proof.
  intros Hstep rs. induction rs as [|r rs IH]; intros s Hs; [done|].
  rewrite run_cons. by apply IH, Hstep.
Qed.

Lemma callback_status_truthy (b : Body.t) (s : server) :
  truthy (w_status (callback_writes b s)) = true.
Proof.
  simpl. unfold js_or. by destruct (truthy (read_status b s)) eqn:Hst.
Qed.

Lemma step_well_keyed (r : request) (s : server) :
  well_keyed s → well_keyed (handle r s).2.
Proof.
  intros Hs k job. destruct (decide (writes r = Some k)) as [Hw|Hw].
  2:{ rewrite handle_other by done. apply Hs. }
  destruct r as [st w req|body|k0]; cbn [writes] in Hw; [| |done].
  - injection Hw as <-. rewrite handle_upload.
    destruct (upload_effect st w req s) as [_ [->|[Hnew|Hmod]]]; [apply Hs| |].
    + destruct Hnew as (_ & email & status & message & Hemail & _ & ->).
      rewrite lookup_insert_eq. intros [= <-]. simpl.
      apply nonempty_Some in Hemail as [_ Hemail].
      split; [done|]. split; [apply (uuidv4_length (Upload.rnd w))|done].
    + destruct Hmod as (_ & job0 & job' & Hk & -> & Hid & Hemail & _).
      rewrite lookup_insert_eq. intros [= <-]. rewrite Hid, Hemail.
      by apply Hs.
  - rewrite handle_callback.
    destruct (callback_jobs body s)
      as [->|(b & k0 & job0 & -> & Hid & Hk0 & ->)]; [apply Hs|].
    simpl in Hw. rewrite Hid in Hw. injection Hw as ->.
    rewrite lookup_insert_eq. intros [= <-]. simpl. by apply Hs.
Qed.

Lemma step_well_valued (r : request) (s : server) :
  well_valued s → well_valued (handle r s).2.
Proof.
  intros Hs k job. destruct (decide (writes r = Some k)) as [Hw|Hw].
  2:{ rewrite handle_other by done. apply Hs. }
  destruct r as [st w req|body|k0]; cbn [writes] in Hw; [| |done].
  - injection Hw as <-. rewrite handle_upload.
    destruct (upload_effect st w req s) as [_ [->|[Hnew|Hmod]]]; [apply Hs| |].
    + destruct Hnew as (_ & email & status & message & _ & Hst & ->).
      rewrite lookup_insert_eq. intros [= <-]. simpl.
      split; [by left|]. by destruct Hst as [-> | ->].
    + destruct Hmod as (_ & job0 & job' & Hk & -> & _ & _ & _ & Hp & Hst).
      rewrite lookup_insert_eq. intros [= <-].
      destruct (Hs _ _ Hk) as [Hp0 _]. split.
      * destruct Hp as [-> | ->]; auto.
      * by destruct Hst as [-> | ->].
  - rewrite handle_callback.
    destruct (callback_jobs body s)
      as [->|(b & k0 & job0 & -> & Hid & Hk0 & ->)]; [apply Hs|].
    simpl in Hw. rewrite Hid in Hw. injection Hw as ->.
    rewrite lookup_insert_eq. intros [= <-].
    split; [simpl; auto|]. apply callback_status_truthy.
Qed.

(** X5.  In every store the server can reach from its start, each record
    sits under its own identifier ([job.id] is the key), the identifier
    has the 36 characters of a uuid, and the email is not empty. *)
Theorem reachable_well_keyed (rs : list request) : well_keyed (run rs init).
Proof. apply run_invariant; [apply step_well_keyed|]. by intros k job. Qed.

(** X6.  In every store the server can reach from its start, the progress
    of a record is 10, 40 or 100 and its status is truthy (a callback
    never stores an empty or absent status). *)
Theorem reachable_well_valued (rs : list request) : well_valued (run rs init).
Proof. apply run_invariant; [apply step_well_valued|]. by intros k job. Qed.

(** X7.  No request removes a record: the identifiers in the store only
    grow. *)
Theorem records_never_removed (rs : list request) (s : server) :
  dom (jobs s) ⊆ dom (jobs (run rs s)).
Proof.
  intros k Hk. apply elem_of_dom. apply run_keeps. by apply elem_of_dom.
Qed.

Lemma step_creates_nothing (r : request) (s : server) :
  creates_nothing r → dom (jobs (handle r s).2) = dom (jobs s).
Proof.
  intros Hr. destruct r as [st w req|body|k0].
  - rewrite handle_upload.
    destruct (upload_effect st w req s) as [_ [->|[Hnew|Hmod]]]; [done| |].
    + destruct Hnew as [-> _]. done.
    + destruct Hmod as (_ & job0 & job' & Hk & -> & _).
      rewrite dom_insert_L. apply subseteq_union_1_L, singleton_subseteq_l.
      by eapply elem_of_dom_2.
  - rewrite handle_callback.
    destruct (callback_jobs body s)
      as [->|(b & k0 & job0 & -> & Hid & Hk0 & ->)]; [done|].
    rewrite dom_insert_L. apply subseteq_union_1_L, singleton_subseteq_l.
    by eapply elem_of_dom_2.
  - by rewrite handle_status.
Qed.

(** X8.  Only the first stage of an upload creates a record: callbacks,
    status queries and the later stages of uploads leave the set of
    identifiers in the store as it is (a callback never creates a job). *)
Theorem only_uploads_create (rs : list request) (s : server) :
  Forall creates_nothing rs → dom (jobs (run rs s)) = dom (jobs s).
Proof.
  revert s. induction rs as [|r rs IH]; intros s Hrs; [done|].
  apply Forall_cons in Hrs as [Hr Hrs].
  rewrite run_cons, IH by done. by apply step_creates_nothing.
Qed.

Lemma only_uploads_create_scenario :
  dom (jobs (run [ Callback (Some Scenario.stale);
                   Callback (Some Scenario.great_fit);
                   Status "constructor";
                   Upload Triggered Scenario.world_timeout Scenario.request ]
                 Scenario.trained))
    = dom (jobs Scenario.trained).
Proof.
  apply (only_uploads_create
           [ Callback (Some Scenario.stale);
             Callback (Some Scenario.great_fit);
             Status "constructor";
             Upload Triggered Scenario.world_timeout Scenario.request ]
           Scenario.trained).
  repeat constructor.
Defined.

Lemma jobs_get_prototype (s : server) (k : string) :
  jobs_get s k = ObjectPrototype → k = "__proto__".
Proof.
  unfold jobs_get. destruct (jobs s !! k); [done|].
  destruct (String.eqb_spec k "__proto__") as [->|_]; [done|].
  repeat case_match; done.
Qed.

(** The assignments reach [Object.prototype] under the key [__proto__]
    only. *)
Lemma write_spares_prototype (k : string) (w : written) (s : server) :
  k ≠ "__proto__" → prototype (write k w s) = prototype s.
Proof.
  intros Hk. unfold write. destruct (jobs_get s k) eqn:Hslot; try done.
  - by apply jobs_get_prototype in Hslot.
  - by destruct v.
Qed.

Lemma step_spares_prototype (r : request) (s : server) :
  spares_prototype r → prototype (handle r s).2 = prototype s.
Proof.
  intros Hr. destruct r as [st w req|body|k0].
  - rewrite handle_upload. by destruct (upload_effect st w req s) as [-> _].
  - rewrite handle_callback.
    destruct (callback_cases body s) as [->|(b & k & -> & Hid & _ & ->)];
      [done|].
    simpl in *. apply write_spares_prototype. congruence.
  - by rewrite handle_status.
Qed.

Lemma run_spares_prototype (rs : list request) (s : server) :
  Forall spares_prototype rs → prototype (run rs s) = prototype s.
Proof.
  revert s. induction rs as [|r rs IH]; intros s Hrs; [done|].
  apply Forall_cons in Hrs as [Hr Hrs].
  rewrite run_cons, IH by done. by apply step_spares_prototype.
Qed.

(** X9.  [Object.prototype] is written by nothing but a callback whose
    [jobId] is [__proto__]: uploads, status queries and all other
    callbacks leave it as it is. *)
Theorem prototype_spared (rs : list request) (s : server) :
  Forall spares_prototype rs → prototype (run rs s) = prototype s.
Proof. apply run_spares_prototype. Qed.

Lemma prototype_spared_scenario :
  prototype (run [ Upload Start Scenario.world_timeout Scenario.request;
                   Callback (Some Scenario.stale);
                   Callback (Some Scenario.great_fit);
                   Callback (Some Scenario.unkeyed); Callback None;
                   Status "__proto__" ] Scenario.trained)
    = prototype Scenario.trained.
Proof.
  apply (prototype_spared
           [ Upload Start Scenario.world_timeout Scenario.request;
             Callback (Some Scenario.stale);
             Callback (Some Scenario.great_fit);
             Callback (Some Scenario.unkeyed); Callback None;
             Status "__proto__" ] Scenario.trained).
  repeat constructor; discriminate.
Defined.

(** A stage of the upload route touches the records only. *)
Lemma upload_frame (st : stage) (w : Upload.world) (req : Upload.request)
    (s : server) :
  ∃ m, (upload st w req s).2 = Build m (prototype s) (objects s).
Proof.
  destruct st.
  - destruct (Upload.csv req) as [csvPath|] eqn:Hcsv.
    2:{ destruct (upload_start_rejected w req s) as [m ->]; [auto|].
        exists (jobs s). by destruct s. }
    destruct (nonempty (Upload.email req)) as [email|] eqn:Hemail.
    2:{ destruct (upload_start_rejected w req s) as [m ->]; [auto|].
        exists (jobs s). by destruct s. }
    rewrite (upload_start_valid w req s email)
      by (split; [by rewrite Hcsv|done]).
    destruct (stage_failure Start w); by eexists.
  - destruct (jobs s !! job_key w) as [job|] eqn:Hk.
    + destruct (upload_stored_some w req s job Hk) as [p ->].
      destruct (stage_failure Stored w); by eexists.
    + destruct (upload_stored_none w req s Hk) as [e ->].
      exists (jobs s). by destruct s.
  - rewrite upload_triggered. destruct (stage_failure Triggered w) as [e|].
    2:{ exists (jobs s). by destruct s. }
    destruct (jobs s !! job_key w) as [job|] eqn:Hk.
    + rewrite (catch_some _ _ _ _ Hk). by eexists.
    + rewrite catch_none by done. exists (jobs s). by destruct s.
Qed.

Lemma write_status_shared (k : string) (b : Body.t) (s : server) :
  status_shared s → status_shared (write k (callback_writes b s) s).
Proof.
  intros Hs. unfold write. destruct (jobs_get s k) eqn:Hslot; try done.
  - unfold write_prototype.
    destruct (w_status (callback_writes b s)) as [|v|l] eqn:Hst.
    + intros p [= <-]. rewrite Hst. by split.
    + destruct (is_object v) eqn:Hobj; intros p [= <-].
      * cbn [w_status objects shared_objects]. split; [done|].
        intros l [= <-]. rewrite length_app. simpl. lia.
      * rewrite Hst. simpl. by split.
    + intros p [= <-]. rewrite Hst. split; [done|].
      intros l' [= <-]. revert Hst.
      unfold callback_writes, read_status, js_or. cbn [w_status].
      destruct (Body.status b) as [v|]; [by destruct (truthy (Json v))|].
      destruct (prototype s) as [p|] eqn:Hp; [|done].
      destruct (truthy (w_status p)); [|done].
      intros Hl. cbn [objects shared_objects]. by apply (Hs p).
  - destruct v as [|v|l]; try done.
    intros p Hp. destruct (Hs p Hp) as [Hobj Hl]. split; [done|].
    intros l' Hl'. cbn [objects shared_objects]. rewrite length_alter.
    by apply Hl.
Qed.

Lemma step_status_shared (r : request) (s : server) :
  status_shared s → status_shared (handle r s).2.
Proof.
  intros Hs. destruct r as [st w req|body|k0].
  - rewrite handle_upload. by destruct (upload_frame st w req s) as [m ->].
  - rewrite handle_callback.
    destruct (callback_cases body s) as [->|(b & k & -> & _ & _ & ->)];
      [done|].
    by apply write_status_shared.
  - by rewrite handle_status.
Qed.

(** In every state the server can reach from its start, what
    [Object.prototype] holds under [status] is no array or object of its
    own: an array or object that a callback has stored there is one of the
    shared objects, and the three assignments under the key [status] are
    made on it. *)
Lemma reachable_status_shared (rs : list request) :
  status_shared (run rs init).
Proof. apply run_invariant; [apply step_status_shared|]. by intros p. Qed.








Lemma step_fields (r : request) (s : server) (k : string) (job : Job.t) :
  jobs s !! k = Some job → ¬ recreates k r →
  ∃ job', jobs (handle r s).2 !! k = Some job' ∧
          Job.id job' = Job.id job ∧ Job.email job' = Job.email job ∧
          (¬ calls_back k r → Job.result job' = Job.result job).
Proof.
  intros Hk Hr. destruct (decide (writes r = Some k)) as [Hw|Hw].
  2:{ exists job. by rewrite handle_other. }
  destruct r as [st w req|body|k0]; cbn [writes] in Hw; [| |done].
  - injection Hw as <-. rewrite handle_upload.
    destruct (upload_effect st w req s) as [_ [->|[Hnew|Hmod]]].
    + by exists job.
    + destruct Hnew as [-> _]. by destruct Hr.
    + destruct Hmod as (_ & job0 & job' & Hk0 & -> & Hid & Hemail & Hres & _).
      assert (job0 = job) as -> by congruence.
      exists job'. by rewrite lookup_insert_eq.
  - rewrite handle_callback.
    destruct (callback_jobs body s)
      as [->|(b & k0 & job0 & -> & Hid & Hk0 & ->)].
    { by exists job. }
    simpl in Hw. rewrite Hid in Hw. injection Hw as ->.
    assert (job0 = job) as -> by congruence.
    eexists. rewrite lookup_insert_eq. split; [done|]. simpl.
    repeat split. intros Hcb. by destruct Hcb.
Qed.

(** X23.  The identity of a record is fixed: as long as no upload draws
    its identifier again, whatever requests are served, the record stays
    in the store with the [id] and the [email] it was created with. *)
Theorem identity_fields_fixed (rs : list request) (s : server) (k : string)
    (job : Job.t) :
  Forall (λ r, ¬ recreates k r) rs → jobs s !! k = Some job →
  ∃ job', jobs (run rs s) !! k = Some job' ∧
          Job.id job' = Job.id job ∧ Job.email job' = Job.email job.
Proof.
  revert s job. induction rs as [|r rs IH]; intros s job Hrs Hk.
  - by exists job.
  - apply Forall_cons in Hrs as [Hr Hrs]. rewrite run_cons.
    destruct (step_fields r s k job Hk Hr) as (job1 & Hk1 & Hid1 & Hemail1 & _).
    destruct (IH _ job1 Hrs Hk1) as (job' & Hk' & Hid' & Hemail').
    exists job'. split; [done|]. split; congruence.
Qed.

Lemma identity_fields_fixed_scenario :
  ∃ job', jobs (run [ Callback (Some Scenario.great_fit);
                      Callback (Some Scenario.retrain);
                      Upload Start Scenario.world_timeout Scenario.request;
                      Upload Triggered Scenario.world_timeout Scenario.request;
                      Callback (Some Scenario.failed) ] Scenario.trained)
            !! Scenario.jobId = Some job' ∧
          Job.id job' = Job.id Scenario.training_job ∧
          Job.email job' = Job.email Scenario.training_job.
Proof.
  apply (identity_fields_fixed
           [ Callback (Some Scenario.great_fit);
             Callback (Some Scenario.retrain);
             Upload Start Scenario.world_timeout Scenario.request;
             Upload Triggered Scenario.world_timeout Scenario.request;
             Callback (Some Scenario.failed) ] Scenario.trained Scenario.jobId
           Scenario.training_job).
  - repeat constructor; vm_compute; (discriminate || by intros []).
  - vm_compute. reflexivity.
Defined.

(** X24.  [result] is written by callbacks only: requests among which no
    callback names the job (and no upload draws its identifier again)
    leave the result of its record as it is, present or absent. *)
Theorem result_written_by_callbacks (rs : list request) (s : server)
    (k : string) (job : Job.t) :
  Forall (λ r, ¬ recreates k r ∧ ¬ calls_back k r) rs →
  jobs s !! k = Some job →
  ∃ job', jobs (run rs s) !! k = Some job' ∧ Job.result job' = Job.result job.
Proof.
  revert s job. induction rs as [|r rs IH]; intros s job Hrs Hk.
  - by exists job.
  - apply Forall_cons in Hrs as [[Hr Hcb] Hrs]. rewrite run_cons.
    destruct (step_fields r s k job Hk Hr) as (job1 & Hk1 & _ & _ & Hres1).
    destruct (IH _ job1 Hrs Hk1) as (job' & Hk' & Hres').
    exists job'. split; [done|]. rewrite Hres'. by apply Hres1.
Qed.

Lemma result_written_by_callbacks_scenario :
  ∃ job', jobs (run [ Callback (Some Scenario.stale); Status Scenario.jobId;
                      Upload Stored Scenario.world Scenario.request;
                      Upload Triggered Scenario.world Scenario.request ]
                    Scenario.completed) !! Scenario.jobId = Some job' ∧
          Job.result job' = Job.result Scenario.completed_job.
Proof.
  apply (result_written_by_callbacks
           [ Callback (Some Scenario.stale); Status Scenario.jobId;
             Upload Stored Scenario.world Scenario.request;
             Upload Triggered Scenario.world Scenario.request ]
           Scenario.completed Scenario.jobId Scenario.completed_job).
  - repeat constructor; vm_compute; (discriminate || by intros []).
  - vm_compute. reflexivity.
Defined.

End ServerExtra.

(** * More properties of the component *)

Module ClientExtra.
Import Client ClientSpec Component ClientProofs.

Lemma ends_with_spec (suffix name : string) :
  ends_with suffix name = true ↔ ∃ stem, name = stem +:+ suffix.
Proof.
  split.
  - induction name as [|a name IH]; cbn [ends_with].
    + destruct (String.eqb_spec "" suffix) as [<-|]; [|done]. by exists "".
    + destruct (String.eqb_spec (String a name) suffix) as [<-|_].
      { by exists "". }
      intros [stem ->]%IH. by exists (String a stem).
  - intros [stem ->]. induction stem as [|a stem IH].
    + change ("" +:+ suffix) with suffix.
      destruct suffix; cbn [ends_with]; by rewrite String.eqb_refl.
    + change (String a stem +:+ suffix) with (String a (stem +:+ suffix)).
      cbn [ends_with]. by destruct (String.eqb _ suffix).
Qed.

Lemma steps_snoc (es : list event) (e : event) (c : state) :
  steps (es ++ [e]) c = step e (steps es c).
Proof. unfold steps. by rewrite foldl_app. Qed.

Lemma steps_cons (e : event) (es : list event) (c : state) :
  steps (e :: es) c = steps es (step e c).
Proof. reflexivity. Qed.

Lemma submit_Some (c c1 : state) :
  submit c = Some c1 →
  c1 = State (csv c) (email c) "uploading" 10 (jobId c) None "" ∧
  is_Some (csv c) ∧ email c ≠ "".
Proof.
  unfold submit. destruct (csv c) as [name|]; [|done].
  destruct (String.eqb_spec (email c) ""); [done|].
  intros [= <-]. by repeat split.
Qed.

Lemma tick_fields (r : poll_reply) (c : state) :
  csv (tick r c) = csv c ∧ email (tick r c) = email c ∧
  jobId (tick r c) = jobId c.
Proof. unfold tick. by repeat case_match. Qed.

Lemma step_keeps_csv (e : event) (c : state) :
  (∀ name, csv c = Some name → ends_with ".csv" name = true) →
  ∀ name, csv (step e c) = Some name → ends_with ".csv" name = true.
Proof.
  intros Hc name. destruct e as [[file|]|value| |reply|reply|].
  - unfold step, handleFileChange. destruct (shown c); [|apply Hc].
    destruct (ends_with ".csv" file) eqn:Hfile; [|apply Hc].
    simpl. by intros [= <-].
  - unfold step. destruct (shown c); apply Hc.
  - unfold step. destruct (shown c); apply Hc.
  - unfold step. destruct (shown c); [|apply Hc].
    destruct (submit c) as [c1|] eqn:Hsubmit; [|apply Hc].
    apply submit_Some in Hsubmit as [-> _]. apply Hc.
  - assert (csv (step (Reply reply) c) = csv c) as ->; [|apply Hc].
    unfold step. destruct (shown c), reply; reflexivity.
  - assert (csv (step (Interval reply) c) = csv c) as ->; [|apply Hc].
    unfold step. destruct (shown c); apply tick_fields.
  - unfold step.
    destruct (shown c), (result_card c); (apply Hc || by simpl).
Qed.

(** X12.  Whatever the user does, the file the component holds has a name
    that ends in [.csv]: [handleFileChange] keeps no other file, and
    nothing else sets one. *)
Theorem held_file_is_csv (es : list event) (name : string) :
  csv (steps es Client.init) = Some name → ∃ stem, name = stem +:+ ".csv".
Proof.
  intros Hname. apply ends_with_spec. revert name Hname.
  induction es as [|e es IH] using rev_ind; [done|].
  rewrite steps_snoc. by apply step_keeps_csv.
Qed.

Lemma held_file_is_csv_scenario : ∃ stem, "data.csv" = stem +:+ ".csv".
Proof.
  apply (held_file_is_csv
           [ ChooseFile (Some "notes.txt"); ChooseFile (Some "data.csv");
             TypeEmail "a@b.com"; ChooseFile (Some "report.pdf");
             ChooseFile None; Submit;
             Reply (Rejected "Network Error") ] "data.csv").
  reflexivity.
Defined.

Lemma tick_coherent (r : poll_reply) (c : state) :
  coherent c → polling c = true → coherent (tick r c).
Proof.
  intros Hc Hpoll%polling_training.
  assert (30 ≤ progress c ≤ 95) as Hp.
  { destruct Hc as [[Hst _]|[[Hst _]|[[_ Hp]|[[Hst _]|[Hst _]]]]];
      congruence || done. }
  unfold tick. destruct r as [st res|]; [|done]. unfold coherent.
  repeat case_match; simpl; auto 10 with lia.
Qed.

Lemma step_coherent (e : event) (c : state) :
  coherent c → in_time e c → coherent (step e c).
Proof.
  intros Hc He. destruct e as [file|value| |reply|reply|].
  - unfold step, handleFileChange. destruct (shown c); [|done].
    by repeat case_match.
  - unfold step. by destruct (shown c).
  - unfold step. destruct (shown c); [|done].
    destruct (submit c) as [c1|] eqn:Hsubmit; [|done].
    apply submit_Some in Hsubmit as [-> _]. right; left. by simpl.
  - assert (step (Reply reply) c = submitted reply c) as ->.
    { unfold step. by destruct (shown c). }
    simpl in He.
    assert (progress c = 10) as Hp.
    { destruct Hc as [[Hst' _]|[[_ Hp]|[[Hst' _]|[[Hst' _]|[Hst' _]]]]];
        congruence || done. }
    unfold coherent. destruct reply; simpl; auto 10 with lia.
  - unfold step. destruct (shown c); by apply tick_coherent.
  - unfold step, coherent.
    destruct (shown c), (result_card c); simpl; auto.
Qed.

Lemma steps_coherent (es : list event) (c : state) :
  coherent c → all_in_time es c → coherent (steps es c).
Proof.
  revert c. induction es as [|e es IH]; intros c Hc Hes; [done|].
  destruct Hes as [He Hes]. rewrite steps_cons.
  by apply IH; [apply step_coherent|].
Qed.

(** X13.  As long as every reply arrives in time (that of the upload
    while the status is "uploading", that of a poll while the interval is
    set), whatever the user does and whatever the server replies, status
    and displayed progress of the component fit together: the progress is
    0 when idle, 10 while uploading, from 30 to 95 while training, 100 when
    completed and from 10 to 95 in error; so the bar shows 100 exactly
    when the status is completed. *)
Theorem component_coherent (es : list event) :
  all_in_time es Client.init →
  coherent (steps es Client.init) ∧
  (progress (steps es Client.init) = 100
   ↔ status (steps es Client.init) = "completed").
Proof.
  intros Hes.
  assert (coherent (steps es Client.init)) as Hc
    by (apply steps_coherent; [by left|done]).
  split; [done|].
  destruct Hc as [[Hst Hp]|[[Hst Hp]|[[Hst Hp]|[[Hst Hp]|[Hst Hp]]]]];
    rewrite Hst; split; intros H; (done || lia).
Qed.

Lemma component_coherent_scenario :
  coherent (steps [ ChooseFile (Some "data.csv"); TypeEmail "a@b.com"; Submit;
                    Reply (Accepted (Some Scenario.jobId));
                    Interval (Data (JStr "training") None); Interval Failed;
                    Interval (Data (JStr "completed") None); TrainAnother ]
                  Client.init) ∧
  (progress (steps [ ChooseFile (Some "data.csv"); TypeEmail "a@b.com"; Submit;
                     Reply (Accepted (Some Scenario.jobId));
                     Interval (Data (JStr "training") None); Interval Failed;
                     Interval (Data (JStr "completed") None); TrainAnother ]
                   Client.init) = 100
   ↔ status (steps [ ChooseFile (Some "data.csv"); TypeEmail "a@b.com"; Submit;
                     Reply (Accepted (Some Scenario.jobId));
                     Interval (Data (JStr "training") None); Interval Failed;
                     Interval (Data (JStr "completed") None); TrainAnother ]
                   Client.init) = "completed").
Proof.
  apply (component_coherent
           [ ChooseFile (Some "data.csv"); TypeEmail "a@b.com"; Submit;
             Reply (Accepted (Some Scenario.jobId));
             Interval (Data (JStr "training") None); Interval Failed;
             Interval (Data (JStr "completed") None); TrainAnother ]).
  vm_compute. repeat split.
Defined.

(** A reply that arrives late breaks this: a poll sent before the one
    that found the job completed, and answered after it with status
    "training", leaves the status at "completed" with the bar at 95. *)
Example late_reply_lowers_bar :
  status (steps [ ChooseFile (Some "data.csv"); TypeEmail "a@b.com"; Submit;
                  Reply (Accepted (Some Scenario.jobId));
                  Interval (Data (JStr "completed") None);
                  Interval (Data (JStr "training") None) ] Client.init)
    = "completed" ∧
  progress (steps [ ChooseFile (Some "data.csv"); TypeEmail "a@b.com"; Submit;
                    Reply (Accepted (Some Scenario.jobId));
                    Interval (Data (JStr "completed") None);
                    Interval (Data (JStr "training") None) ] Client.init)
    = 95.
Proof. split; reflexivity. Qed.

Lemma ticks_cons (r : poll_reply) (rs : list poll_reply) (c : state) :
  ticks (r :: rs) c = ticks rs (tick r c).
Proof. reflexivity. Qed.

Lemma tick_status (r : poll_reply) (c : state) :
  status (tick r c) = status c ∨
  (status (tick r c) = "completed" ∧ observes "completed" r = true) ∨
  (status (tick r c) = "error" ∧ observes "error" r = true).
Proof.
  unfold tick. destruct r as [st res|]; [|by left]. simpl.
  destruct (strict_eq st (JStr "completed")); [by right; left|].
  destruct (strict_eq st (JStr "error")); [by right; right|]. by left.
Qed.

(** X14.  While the interval runs, the displayed progress counts the polls
    that were answered: after any number of non-terminal polls it is the
    progress at the start plus 2 for each answered poll, capped at 95 (a
    failed poll adds nothing), and the component is still polling. *)
Theorem progress_counts_answers (rs : list poll_reply) (c : state) :
  polling c = true → progress c ≤ 95 → Forall non_terminal rs →
  progress (ticks rs c) = Z.min (progress c + 2 * answers rs) 95 ∧
  polling (ticks rs c) = true.
Proof.
  revert c. induction rs as [|r rs IH]; intros c Hpoll Hp Hrs.
  - unfold answers. simpl. split; [lia|done].
  - apply Forall_cons in Hrs as [[Hnc Hne] Hrs]. rewrite ticks_cons.
    destruct r as [st res|].
    + simpl in Hnc, Hne.
      assert (tick (Data st res) c =
                State (csv c) (email c) (status c) (Z.min (progress c + 2) 95)
                      (jobId c) (result c) (errorMsg c)) as ->.
      { unfold tick. by rewrite Hnc, Hne. }
      destruct (IH (State (csv c) (email c) (status c)
                          (Z.min (progress c + 2) 95)
                          (jobId c) (result c) (errorMsg c)))
        as [-> ->]; [done|simpl; lia|done|].
      split; [|done]. unfold answers. simpl. lia.
    + assert (tick Failed c = c) as -> by done.
      destruct (IH c Hpoll Hp Hrs) as [-> ->]. split; [|done].
      unfold answers. simpl. lia.
Qed.

Lemma progress_counts_answers_scenario :
  progress (ticks [ Data (JStr "training") None; Failed;
                    Data (JStr "uploading") None; Data JUndefined None ]
                  waiting)
    = Z.min (progress waiting
             + 2 * answers [ Data (JStr "training") None; Failed;
                             Data (JStr "uploading") None;
                             Data JUndefined None ]) 95 ∧
  polling (ticks [ Data (JStr "training") None; Failed;
                   Data (JStr "uploading") None; Data JUndefined None ]
                 waiting) = true.
Proof.
  apply (progress_counts_answers
           [ Data (JStr "training") None; Failed;
             Data (JStr "uploading") None; Data JUndefined None ] waiting).
  - reflexivity.
  - vm_compute. discriminate.
  - repeat constructor.
Defined.

Lemma ticks_ended (rs : list poll_reply) (c : state) :
  status c = "completed" ∨ status c = "error" →
  status (ticks rs c) = "completed" ∨ status (ticks rs c) = "error".
Proof.
  intros Hc. induction rs as [|r rs IH] using rev_ind; [done|].
  rewrite ticks_snoc.
  destruct (tick_status r (ticks rs c)) as [->|[[-> _]|[-> _]]]; auto.
Qed.

(** X15.  A poll reply that carries "completed" or "error" ends the
    polling: whatever poll replies are handled after it, the status is
    "completed" or "error", so the interval is not set and sends no
    request. *)
Theorem terminal_poll_ends_polling (r : poll_reply) (rs : list poll_reply)
    (c : state) :
  observes "completed" r || observes "error" r = true →
  polling (ticks rs (tick r c)) = false ∧
  (status (ticks rs (tick r c)) = "completed" ∨
   status (ticks rs (tick r c)) = "error").
Proof.
  intros Hterminal.
  assert (status (tick r c) = "completed" ∨ status (tick r c) = "error") as Hr.
  { unfold tick. destruct r as [st res|]; [|done]. simpl in Hterminal.
    destruct (strict_eq st (JStr "completed")); [by left|].
    simpl in Hterminal. rewrite Hterminal. by right. }
  pose proof (ticks_ended rs _ Hr) as Hend. split; [|done].
  unfold polling. by destruct Hend as [-> | ->].
Qed.

Lemma terminal_poll_ends_polling_scenario :
  polling (ticks [ Data (JStr "training") None; Data (JStr "completed") None ]
                 (tick (Data (JStr "error") None) waiting)) = false ∧
  (status (ticks [ Data (JStr "training") None; Data (JStr "completed") None ]
                 (tick (Data (JStr "error") None) waiting)) = "completed" ∨
   status (ticks [ Data (JStr "training") None; Data (JStr "completed") None ]
                 (tick (Data (JStr "error") None) waiting)) = "error").
Proof.
  apply (terminal_poll_ends_polling (Data (JStr "error") None)
           [ Data (JStr "training") None; Data (JStr "completed") None ]
           waiting); reflexivity.
Defined.

End ClientExtra.

(** * The component against the server *)

Module EndToEnd.
Import Server Spec Invariant ServerProofs ServerExtra.

#[local] Arguments uuidv4 : simpl never.

Lemma poll_known (s : server) (k : string) (job : Job.t) (st : string) :
  jobs s !! k = Some job → Job.status job = JStr st →
  Wire.poll k s = Some (Client.Data (Job.status job) (Job.result job)).
Proof.
  intros Hk Hst. unfold Wire.poll. by rewrite (status_known _ _ _ st Hk Hst).
Qed.

Lemma poll_lost (s : server) (r : N) :
  jobs s !! uuidv4 r = None → Wire.poll (uuidv4 r) s = Some Client.Failed.
Proof. intros Hk. unfold Wire.poll. by rewrite status_unknown_uuid. Qed.

Lemma multipart_valid (name email : string) :
  email ≠ "" → valid (Wire.multipart name email) email.
Proof.
  intros Hemail. split; [by eexists|]. simpl.
  by destruct (String.eqb_spec email "").
Qed.

Lemma upload_stage_keeps (st : stage) (w : Upload.world) (req : Upload.request)
    (s : server) (k : string) :
  is_Some (jobs s !! k) → is_Some (jobs (upload st w req s).2 !! k).
Proof.
  intros Hk. rewrite <- handle_upload. by apply handle_keeps.
Qed.

(** An accepted submission leaves its record in the store. *)
Lemma upload_handler_record (w : Upload.world) (req : Upload.request)
    (rs1 rs2 : list request) (s : server) (email : string) :
  valid req email →
  is_Some (jobs (upload_handler w req rs1 rs2 s).2 !! job_key w).
Proof.
  intros Hvalid. unfold upload_handler.
  assert (is_Some (jobs (upload Start w req s).2 !! job_key w)) as Hk1.
  { rewrite (upload_start_valid w req s email Hvalid).
    destruct (stage_failure Start w); simpl; rewrite lookup_insert_eq;
      by eexists. }
  destruct (upload Start w req s) as [[res|] s1]; [done|]. simpl in Hk1.
  assert (is_Some (jobs (upload Stored w req (run rs1 s1)).2 !! job_key w))
    as Hk2 by by apply upload_stage_keeps, run_keeps.
  destruct (upload Stored w req (run rs1 s1)) as [[res|] s2]; [done|].
  simpl in Hk2. by apply upload_stage_keeps, run_keeps.
Qed.



(** X16.  What the component submits always passes the validation of the
    upload route: whatever the store and the outcome of the external calls,
    the answer is 200 or 500, never 400, and a job record has been
    created. *)
Theorem submission_creates_job (c c1 : Client.state) (name : string)
    (w : Upload.world) (rs1 rs2 : list request) (s : server) :
  Client.submit c = Some c1 → Client.csv c = Some name →
  ∃ res,
    (upload_handler w (Wire.multipart name (Client.email c)) rs1 rs2 s).1
      = Some res ∧
    (code res = 200 ∨ code res = 500) ∧
    is_Some (jobs (upload_handler w (Wire.multipart name (Client.email c))
                     rs1 rs2 s).2 !! job_key w).
Proof.
  intros Hsubmit Hcsv.
  apply ClientExtra.submit_Some in Hsubmit as (_ & _ & Hemail).
  pose proof (multipart_valid name _ Hemail) as Hvalid.
  rewrite (upload_handler_answer w _ rs1 rs2 s _ Hvalid).
  eexists. split; [done|]. split.
  - destruct (first_failure w); simpl; auto.
  - by eapply upload_handler_record.
Qed.

Lemma submission_creates_job_scenario :
  ∃ res,
    (upload_handler Scenario.world_timeout
       (Wire.multipart "data.csv" (Client.email ClientSpec.filled))
       Scenario.others Scenario.others Scenario.trained).1 = Some res ∧
    (code res = 200 ∨ code res = 500) ∧
    is_Some (jobs (upload_handler Scenario.world_timeout
                     (Wire.multipart "data.csv" (Client.email ClientSpec.filled))
                     Scenario.others Scenario.others Scenario.trained).2
               !! job_key Scenario.world_timeout).
Proof.
  apply (submission_creates_job ClientSpec.filled ClientSpec.uploading
           "data.csv" Scenario.world_timeout Scenario.others Scenario.others
           Scenario.trained); reflexivity.
Defined.

(** X17.  A failure of the upload on the server reaches the user: the
    component goes to the error state and shows the message of the route,
    "Upload process failed: " followed by the message of the failure; the
    form is back, and no polling starts. *)
Theorem upload_failure_shown (c c1 : Client.state) (name m : string)
    (w : Upload.world) (rs1 rs2 : list request) (s : server) (e : error) :
  Client.submit c = Some c1 → Client.csv c = Some name →
  first_failure w = Some e →
  Client.submitted
    (Wire.axios_post m
       (upload_handler w (Wire.multipart name (Client.email c)) rs1 rs2 s).1)
    c1 =
  Client.State (Client.csv c) (Client.email c) "error" 10 (Client.jobId c)
               None ("Upload process failed: " +:+ err_message e).
Proof.
  intros Hsubmit Hcsv Hfail.
  apply ClientExtra.submit_Some in Hsubmit as (-> & _ & Hemail).
  pose proof (multipart_valid name _ Hemail) as Hvalid.
  by rewrite (upload_handler_answer w _ rs1 rs2 s _ Hvalid), Hfail.
Qed.

Lemma upload_failure_shown_timeout :
  Client.submitted
    (Wire.axios_post "Request failed with status code 500"
       (upload_handler Scenario.world_timeout
          (Wire.multipart "data.csv" (Client.email ClientSpec.filled))
          Scenario.others Scenario.others Scenario.trained).1)
    ClientSpec.uploading =
  Client.State (Client.csv ClientSpec.filled) (Client.email ClientSpec.filled)
               "error" 10 (Client.jobId ClientSpec.filled) None
               ("Upload process failed: " +:+ err_message Scenario.timeout).
Proof.
  apply (upload_failure_shown ClientSpec.filled ClientSpec.uploading
           "data.csv" "Request failed with status code 500"
           Scenario.world_timeout Scenario.others Scenario.others
           Scenario.trained Scenario.timeout); reflexivity.
Defined.



(** A poll of a component that is polling, for a job the store has with
    a status that is a string. *)
Lemma interval_known (s : server) (c : Client.state) (k : string) (job : Job.t)
    (st : string) :
  Client.polling c = true → Client.jobId c = Some k →
  jobs s !! k = Some job → Job.status job = JStr st →
  Wire.interval s c =
    Some (Client.tick (Client.Data (Job.status job) (Job.result job)) c).
Proof.
  intros Hpoll Hid Hk Hst. unfold Wire.interval.
  by rewrite Hpoll, Hid, (poll_known _ _ _ st Hk Hst).
Qed.





(** X20.  A job the store no longer has (the store starts empty with the
    process) freezes the component: the poll is answered 404, the failure
    is swallowed, and the component stays as it is, polling on. *)
Theorem lost_job_freezes_component (s : server) (r : N) (c : Client.state) :
  jobs s !! uuidv4 r = None → Client.jobId c = Some (uuidv4 r) →
  Wire.interval s c = Some c.
Proof.
  intros Hk Hid. unfold Wire.interval.
  destruct (Client.polling c) eqn:Hpoll; [|done].
  by rewrite Hid, (poll_lost _ _ Hk).
Qed.

Lemma lost_job_freezes_component_restart :
  Wire.interval init ClientSpec.waiting = Some ClientSpec.waiting.
Proof.
  apply (lost_job_freezes_component init 7 ClientSpec.waiting); reflexivity.
Defined.

(** X21.  When the polled record has status "error", the component goes
    to the error state with its one fixed message; neither the message
    recorded on the job nor the result is shown, and the bar stays where
    it was. *)
Theorem job_error_shown_generic (s : server) (c : Client.state) (k : string)
    (job : Job.t) :
  jobs s !! k = Some job → Job.status job = JStr "error" →
  Client.polling c = true → Client.jobId c = Some k →
  Wire.interval s c =
    Some (Client.State (Client.csv c) (Client.email c) "error"
                       (Client.progress c) (Client.jobId c) (Client.result c)
                       "Cloud training failed. Please check your data.").
Proof.
  intros Hk Hst Hpoll Hid.
  by rewrite (interval_known _ c k job "error" Hpoll Hid Hk Hst), Hst.
Qed.

Lemma job_error_shown_generic_scenario :
  Wire.interval (callback_handler (Some Scenario.failed) Scenario.trained).2
    ClientSpec.waiting =
    Some (Client.State (Client.csv ClientSpec.waiting)
            (Client.email ClientSpec.waiting) "error"
            (Client.progress ClientSpec.waiting)
            (Client.jobId ClientSpec.waiting)
            (Client.result ClientSpec.waiting)
            "Cloud training failed. Please check your data.").
Proof.
  apply (job_error_shown_generic
           (callback_handler (Some Scenario.failed) Scenario.trained).2
           ClientSpec.waiting Scenario.jobId
           (Job.Build Scenario.jobId (JStr "error") 100 "a@b.com" None
              (Some (Result.Build None (Some (JStr "Training failed"))))));
    vm_compute; reflexivity.
Defined.

End EndToEnd.

(** * The earlier upload route against the present one *)

Module LegacyProofs.
Import Server Spec ServerProofs ServerExtra.

(** X22.  The present upload route answers with the HTTP status of the
    earlier route (the one without job store) on every request and every
    outcome of the external calls, as long as the local file is there when
    it is to be removed; where it is gone, the earlier route fails on the
    removal, which the present one skips. *)
Theorem same_status_as_before (w : Upload.world) (req : Upload.request)
    (rs1 rs2 : list request) (s : server) :
  Upload.existsSync w = true →
  ∃ res, (upload_handler w req rs1 rs2 s).1 = Some res ∧
         code res = Legacy.code (Legacy.upload_handler w req).
Proof.
  intros Hexists. unfold Legacy.upload_handler.
  destruct (Upload.csv req) as [csvPath|] eqn:Hcsv.
  2:{ rewrite upload_validation_answer by auto. rewrite Hcsv. by eexists. }
  destruct (nonempty (Upload.email req)) as [email|] eqn:Hemail.
  2:{ rewrite upload_validation_answer by auto. rewrite Hcsv. by eexists. }
  rewrite (upload_handler_answer w req rs1 rs2 s email)
    by (split; [by rewrite Hcsv|done]).
  eexists. split; [done|].
  unfold first_failure, stage_failure, Legacy.upload_body, Legacy.then_.
  rewrite Hexists.
  destruct (Upload.readFileSync w) as [[]|e]; [|done].
  destruct (Upload.storage_upload w) as [[d er]|e]; [|done]. simpl.
  destruct er as [csvError|]; [done|]. destruct d as [path|]; [|done].
  destruct (Upload.unlinkSync w) as [[]|e]; [|done].
  by destruct (Upload.axios_post w) as [n|e].
Qed.

Lemma same_status_as_before_timeout :
  ∃ res, (upload_handler Scenario.world_timeout Scenario.request
            Scenario.others [Callback (Some Scenario.great_fit)]
            Scenario.trained).1
           = Some res ∧
         code res =
           Legacy.code (Legacy.upload_handler Scenario.world_timeout
                          Scenario.request).
Proof.
  apply (same_status_as_before Scenario.world_timeout Scenario.request
           Scenario.others [Callback (Some Scenario.great_fit)]
           Scenario.trained).
  reflexivity.
Defined.

End LegacyProofs.
